(** * Verification of the token lifecycle core of tokens-generator

    Shallow embedding of [src/tokens/token.service.ts],
    [src/tokens/token.validation.ts], [src/tokens/token.controller.ts] and
    [lib/auth.ts] (validateApiKey), together with the parts of the
    JavaScript platform they call ([Date], [randomUUID], Zod), modelled
    after ECMA-262, RFC 9562 and Zod's documented checks. *)

From Stdlib Require Import ZArith Lia List Bool String Ascii QArith.
From Stdlib Require Import Sorting.Sorted Sorting.Permutation.
Import ListNotations.
Open Scope Z_scope.
Set Warnings "-register-all,-abstract-large-number".

(* ------------------------------------------------------------------ *)
(** ** JavaScript [Date] *)

Module JSDate.

(** A JavaScript [Date] holds a time value: milliseconds since the epoch,
    or NaN for an Invalid Date ([None]). *)
Definition date := option Z.

Definition msPerSecond : Z := 1000.
Definition msPerMinute : Z := 60000.
Definition msPerHour : Z := 3600000.
Definition msPerDay : Z := 86400000.

(** ECMA-262 TimeClip: time values beyond 8.64e15 ms are NaN. *)
Definition maxTime : Z := 8640000000000000.

Definition TimeClip (t : Z) : date :=
  if Z.abs t <=? maxTime then Some t else None.

Definition Day (t : Z) : Z := t / msPerDay.
Definition TimeWithinDay (t : Z) : Z := t mod msPerDay.
Definition HourFromTime (t : Z) : Z := (t / msPerHour) mod 24.
Definition MinFromTime (t : Z) : Z := (t / msPerMinute) mod 60.
Definition SecFromTime (t : Z) : Z := (t / msPerSecond) mod 60.
Definition msFromTime (t : Z) : Z := t mod msPerSecond.

Definition MakeTime (h m s ms : Z) : Z :=
  h * msPerHour + m * msPerMinute + s * msPerSecond + ms.
Definition MakeDate (day time : Z) : Z := day * msPerDay + time.

(** The process's local time zone, as ECMA-262's LocalTZA(t, isUtc):
    [tza_utc u] is the offset in force at the UTC instant [u];
    [tza_local l] is the offset used to read the local time [l] back
    (for a skipped or repeated local time the zone picks one). *)
Record tz := { tza_utc : Z -> Z; tza_local : Z -> Z }.

Definition LocalTime (z : tz) (t : Z) : Z := t + tza_utc z t.
Definition UTC (z : tz) (l : Z) : Z := l - tza_local z l.

(** A zone with one fixed offset, such as UTC (offset 0), the default of
    the node:20-alpine container. *)
Definition fixed_tz (off : Z) : tz := {| tza_utc := fun _ => off; tza_local := fun _ => off |}.

(** [Date.prototype.getMinutes] *)
Definition getMinutes (z : tz) (d : date) : option Z :=
  match d with Some t => Some (MinFromTime (LocalTime z t)) | None => None end.

(** [Date.prototype.setMinutes(min)] (one argument): keeps the local day,
    hour, second and millisecond, replaces the minutes, and converts back
    to UTC. Arithmetic is exact: all intermediate values stay below 2^53
    on the inputs considered below (non-negative time values). *)
Definition setMinutes (z : tz) (d : date) (min : Z) : date :=
  match d with
  | None => None
  | Some t =>
      let lt := LocalTime z t in
      let newDate := MakeDate (Day lt)
                       (MakeTime (HourFromTime lt) min (SecFromTime lt) (msFromTime lt)) in
      TimeClip (UTC z newDate)
  end.

(** [Date > Date]: both operands go through valueOf; NaN compares false. *)
Definition date_gt (a b : date) : bool :=
  match a, b with Some x, Some y => y <? x | _, _ => false end.

Lemma time_decompose (x : Z) :
  MakeDate (Day x) (MakeTime (HourFromTime x) (MinFromTime x) (SecFromTime x) (msFromTime x)) = x.
Proof.
  unfold MakeDate, MakeTime, Day, HourFromTime, MinFromTime, SecFromTime, msFromTime,
    msPerDay, msPerHour, msPerMinute, msPerSecond.
  replace 86400000 with (1000 * 60 * 60 * 24) by reflexivity.
  replace 3600000 with (1000 * 60 * 60) by reflexivity.
  replace 60000 with (1000 * 60) by reflexivity.
  rewrite <- !Z.div_div by lia.
  set (a := x / 1000). set (b := a / 60). set (c := b / 60).
  pose proof (Z.div_mod x 1000 ltac:(lia)).
  pose proof (Z.div_mod a 60 ltac:(lia)).
  pose proof (Z.div_mod b 60 ltac:(lia)).
  pose proof (Z.div_mod c 24 ltac:(lia)).
  fold a b c. lia.
Qed.

End JSDate.

Import JSDate.

(* ------------------------------------------------------------------ *)
(** ** Checking a property on every integer of a finite range *)

Fixpoint all_range (n : nat) (lo : Z) (f : Z -> bool) : bool :=
  match n with
  | O => true
  | S k => if f lo then all_range k (lo + 1) f else false
  end.

Lemma all_range_spec (n : nat) (lo : Z) (f : Z -> bool) :
  all_range n lo f = true -> forall x, lo <= x < lo + Z.of_nat n -> f x = true.
Proof.
  revert lo. induction n as [|k IH]; simpl; intros lo H x Hx; [lia|].
  destruct (f lo) eqn:Hf; [|discriminate].
  destruct (Z.eq_dec x lo) as [->|Hne]; [exact Hf|].
  apply (IH (lo + 1)); [exact H|lia].
Qed.

Definition all_below (n : nat) (f : Z -> bool) : bool := all_range n 0 f.

Lemma all_below_spec (n : nat) (f : Z -> bool) :
  all_below n f = true -> forall x, 0 <= x < Z.of_nat n -> f x = true.
Proof. intros H x Hx. apply (all_range_spec n 0 f H); lia. Qed.

(* ------------------------------------------------------------------ *)
(** ** Calendar: ECMA-262 YearFromTime, MonthFromTime, DateFromTime, MakeDay

    Proleptic Gregorian calendar on day numbers (days since 1970-01-01),
    computed era by era (an era is 400 years, 146097 days). *)

Module Calendar.

(** Year of era (0..399, counted from March), month (1..12) and day of
    month (1..31) of the [doe]-th day of an era that starts on March 1. *)
Definition civil_of_doe (doe : Z) : Z * Z * Z :=
  let yoe := (doe - doe / 1460 + doe / 36524 - doe / 146096) / 365 in
  let doy := doe - (365 * yoe + yoe / 4 - yoe / 100) in
  let mp := (5 * doy + 2) / 153 in
  let d := doy - (153 * mp + 2) / 5 + 1 in
  let m := if mp <? 10 then mp + 3 else mp - 9 in
  (yoe, m, d).

Definition doe_of_civil (yoe m d : Z) : Z :=
  let mp := if 2 <? m then m - 3 else m + 9 in
  let doy := (153 * mp + 2) / 5 + d - 1 in
  yoe * 365 + yoe / 4 - yoe / 100 + doy.

(** YearFromTime, MonthFromTime + 1, DateFromTime of a day number. *)
Definition civil_from_days (z : Z) : Z * Z * Z :=
  let z' := z + 719468 in
  let era := z' / 146097 in
  let doe := z' mod 146097 in
  let '(yoe, m, d) := civil_of_doe doe in
  (yoe + era * 400 + (if m <=? 2 then 1 else 0), m, d).

(** Day number of year [y], month [m] (1..12), day [d]. *)
Definition days_from_civil (y m d : Z) : Z :=
  let y' := y - (if m <=? 2 then 1 else 0) in
  let era := y' / 400 in
  let yoe := y' mod 400 in
  era * 146097 + doe_of_civil yoe m d - 719468.

(** ECMA-262 MakeDay(year, month, date), [month] counted from 0. *)
Definition MakeDay (year month date : Z) : Z :=
  let ym := year + month / 12 in
  let mn := month mod 12 in
  days_from_civil ym (mn + 1) 1 + date - 1.

Definition era_check (doe : Z) : bool :=
  let '(yoe, m, d) := civil_of_doe doe in
  (0 <=? yoe) && (yoe <? 400) && (1 <=? m) && (m <=? 12) && (1 <=? d) && (d <=? 31)
  && (doe_of_civil yoe m d =? doe).

Lemma era_check_all : all_below 146097 era_check = true.
Proof. vm_compute. reflexivity. Qed.

Lemma civil_of_doe_ok (doe : Z) : 0 <= doe < 146097 ->
  let '(yoe, m, d) := civil_of_doe doe in
  0 <= yoe < 400 /\ 1 <= m <= 12 /\ 1 <= d <= 31 /\ doe_of_civil yoe m d = doe.
Proof.
  intros H.
  assert (Hn : Z.of_nat 146097 = 146097) by (vm_compute; reflexivity).
  pose proof (all_below_spec _ _ era_check_all doe ltac:(rewrite Hn; lia)) as E.
  unfold era_check in E. destruct (civil_of_doe doe) as [[yoe m] d].
  rewrite !andb_true_iff, !Z.leb_le, !Z.ltb_lt, Z.eqb_eq in E. lia.
Qed.

Lemma civil_from_days_ok (z : Z) :
  let '(y, m, d) := civil_from_days z in
  1 <= m <= 12 /\ 1 <= d <= 31 /\ days_from_civil y m d = z /\
  ((z + 719468) / 146097) * 400 <= y <= ((z + 719468) / 146097) * 400 + 400.
Proof.
  unfold civil_from_days.
  set (z' := z + 719468). set (era := z' / 146097). set (doe := z' mod 146097).
  assert (Hdoe : 0 <= doe < 146097) by (apply Z.mod_pos_bound; lia).
  pose proof (civil_of_doe_ok doe Hdoe) as Hc.
  destruct (civil_of_doe doe) as [[yoe m] d].
  destruct Hc as (Hy & Hm & Hd & He).
  split; [exact Hm|]. split; [exact Hd|].
  split; [|clearbody era; clear -Hy; destruct (m <=? 2); lia].
  unfold days_from_civil.
  replace (yoe + era * 400 + (if m <=? 2 then 1 else 0) - (if m <=? 2 then 1 else 0))
    with (yoe + era * 400) by ring.
  assert (Hq : (yoe + era * 400) / 400 = era)
    by (rewrite Z.div_add, Z.div_small; lia).
  assert (Hr : (yoe + era * 400) mod 400 = yoe)
    by (rewrite Z.mod_add, Z.mod_small; lia).
  rewrite Hq, Hr, He. pose proof (Z.div_mod z' 146097 ltac:(lia)). fold era doe in H. lia.
Qed.

End Calendar.

(* ------------------------------------------------------------------ *)
(** ** Date.prototype.toISOString and Date.parse on its format *)

Module ISO.
Import Calendar.

Definition digit (n : Z) : ascii := ascii_of_nat (48 + Z.to_nat n).
Definition is_digit (c : ascii) : bool :=
  (48 <=? nat_of_ascii c)%nat && (nat_of_ascii c <=? 57)%nat.
Definition digit_val (c : ascii) : Z := Z.of_nat (nat_of_ascii c) - 48.

(** [n] written with exactly [k] decimal digits (leading zeros). *)
Fixpoint pad (k : nat) (n : Z) : list ascii :=
  match k with
  | O => []
  | S k' => digit (n / 10 ^ Z.of_nat k') :: pad k' (n mod 10 ^ Z.of_nat k')
  end.

Definition yearString (y : Z) : list ascii :=
  if (0 <=? y) && (y <=? 9999) then pad 4 y
  else (if y <? 0 then "-"%char else "+"%char) :: pad 6 (Z.abs y).

(** Date.prototype.toISOString: [YYYY-MM-DDTHH:mm:ss.sssZ], the year in
    the expanded form [+YYYYYY] / [-YYYYYY] outside 0..9999; a RangeError
    ([None]) for an Invalid Date. *)
Definition toISOString (d : date) : option (list ascii) :=
  match d with
  | None => None
  | Some tv =>
      let '(y, mo, dd) := civil_from_days (Day tv) in
      Some (yearString y ++ "-"%char :: pad 2 mo ++ "-"%char :: pad 2 dd ++
            "T"%char :: pad 2 (HourFromTime tv) ++ ":"%char :: pad 2 (MinFromTime tv) ++
            ":"%char :: pad 2 (SecFromTime tv) ++ "."%char :: pad 3 (msFromTime tv) ++
            ["Z"%char])
  end.

(** Reading [k] decimal digits. *)
Fixpoint read_digits (k : nat) (acc : Z) (l : list ascii) : option (Z * list ascii) :=
  match k with
  | O => Some (acc, l)
  | S k' =>
      match l with
      | c :: r => if is_digit c then read_digits k' (acc * 10 + digit_val c) r else None
      | [] => None
      end
  end.

Definition expect (c : ascii) (l : list ascii) : option (list ascii) :=
  match l with
  | d :: r => if Ascii.eqb c d then Some r else None
  | [] => None
  end.

(** Year: four digits, or a sign and six digits; [-000000] is refused. *)
Definition parse_year (l : list ascii) : option (Z * list ascii) :=
  match l with
  | c :: r =>
      if Ascii.eqb c "+"%char then read_digits 6 0 r
      else if Ascii.eqb c "-"%char then
        match read_digits 6 0 r with
        | Some (y, r') => if y =? 0 then None else Some (- y, r')
        | None => None
        end
      else read_digits 4 0 l
  | [] => None
  end.

Notation "x <- a ;; b" := (match a with Some x => b | None => None end)
  (at level 60, right associativity, only parsing).
Notation "' p <- a ;; b" := (match a with Some p => b | None => None end)
  (at level 60, p pattern, right associativity, only parsing).

(** Date.parse on the Date Time String Format
    [YYYY-MM-DDTHH:mm:ss.sssZ]: the fields are range checked as V8 does
    (month 1..12, day 1..31, hour 0..23 or 24:00:00.000, minute and second
    0..59), then MakeDate(MakeDay, MakeTime) and TimeClip. *)
Definition parseISO (l : list ascii) : date :=
  '(y, l) <- parse_year l ;;
  l <- expect "-"%char l ;; '(mo, l) <- read_digits 2 0 l ;;
  l <- expect "-"%char l ;; '(dd, l) <- read_digits 2 0 l ;;
  l <- expect "T"%char l ;; '(h, l) <- read_digits 2 0 l ;;
  l <- expect ":"%char l ;; '(mi, l) <- read_digits 2 0 l ;;
  l <- expect ":"%char l ;; '(sec, l) <- read_digits 2 0 l ;;
  l <- expect "."%char l ;; '(ms, l) <- read_digits 3 0 l ;;
  l <- expect "Z"%char l ;;
  match l with
  | _ :: _ => None
  | [] =>
      if (1 <=? mo) && (mo <=? 12) && (1 <=? dd) && (dd <=? 31)
         && ((h <=? 23) && (mi <=? 59) && (sec <=? 59)
             || (h =? 24) && (mi =? 0) && (sec =? 0) && (ms =? 0))
      then TimeClip (MakeDate (MakeDay y (mo - 1) dd) (MakeTime h mi sec ms))
      else None
  end.

(** *** Round trip *)

Lemma pad_S (k : nat) (n : Z) :
  pad (S k) n = digit (n / 10 ^ Z.of_nat k) :: pad k (n mod 10 ^ Z.of_nat k).
Proof. reflexivity. Qed.

Definition digit_facts (n : Z) : bool :=
  is_digit (digit n) && (digit_val (digit n) =? n)
  && negb (Ascii.eqb (digit n) "+"%char) && negb (Ascii.eqb (digit n) "-"%char).

Lemma digit_facts_ok (n : Z) : 0 <= n < 10 ->
  is_digit (digit n) = true /\ digit_val (digit n) = n /\
  Ascii.eqb (digit n) "+"%char = false /\ Ascii.eqb (digit n) "-"%char = false.
Proof.
  intros Hn. pose proof (all_below_spec 10 digit_facts eq_refl n Hn) as H.
  unfold digit_facts in H. rewrite !andb_true_iff, !negb_true_iff, Z.eqb_eq in H. tauto.
Qed.

Ltac some_pair_eq :=
  match goal with
  |- Some (?a, ?r) = Some (?b, ?r) => apply (f_equal (fun x => Some (x, r))); lia
  end.

Local Arguments pad : simpl never.
Local Arguments read_digits : simpl never.

Lemma read_pad (k : nat) : forall (n acc : Z) (rest : list ascii),
  0 <= n < 10 ^ Z.of_nat k ->
  read_digits k acc (pad k n ++ rest) = Some (acc * 10 ^ Z.of_nat k + n, rest).
Proof.
  induction k as [|k IH]; intros n acc rest Hn.
  - simpl in Hn. replace n with 0 by lia.
    change (Some (acc, rest) = Some (acc * 10 ^ Z.of_nat 0 + 0, rest)).
    simpl. some_pair_eq.
  - rewrite pad_S. simpl app.
    assert (Hp : 0 < 10 ^ Z.of_nat k) by (apply Z.pow_pos_nonneg; lia).
    rewrite Nat2Z.inj_succ, Z.pow_succ_r in Hn |- * by lia.
    assert (Hq : 0 <= n / 10 ^ Z.of_nat k < 10).
    { split; [apply Z.div_pos; lia | apply Z.div_lt_upper_bound; lia]. }
    destruct (digit_facts_ok _ Hq) as (Hd & Hv & _).
    unfold read_digits; fold read_digits. rewrite Hd, Hv.
    rewrite IH by (apply Z.mod_pos_bound; lia).
    pose proof (Z.div_mod n (10 ^ Z.of_nat k) ltac:(lia)).
    some_pair_eq.
Qed.

Lemma read_pad0 (k : nat) (n : Z) (rest : list ascii) :
  0 <= n < 10 ^ Z.of_nat k -> read_digits k 0 (pad k n ++ rest) = Some (n, rest).
Proof. intros H. rewrite read_pad by exact H. some_pair_eq. Qed.

Lemma parse_yearString (y : Z) (rest : list ascii) :
  - 1000000 < y < 1000000 -> parse_year (yearString y ++ rest) = Some (y, rest).
Proof.
  intros Hy. unfold yearString.
  destruct ((0 <=? y) && (y <=? 9999)) eqn:Hs.
  - apply andb_true_iff in Hs as [H1 H2]. apply Z.leb_le in H1, H2.
    assert (Hq : 0 <= y / 1000 < 10).
    { split; [apply Z.div_pos; lia | apply Z.div_lt_upper_bound; lia]. }
    destruct (digit_facts_ok _ Hq) as (_ & _ & Hplus & Hminus).
    unfold parse_year. change (pad 4 y) with (digit (y / 1000) :: pad 3 (y mod 1000)).
    rewrite <- app_comm_cons. cbv beta iota. rewrite Hplus, Hminus.
    change (digit (y / 1000) :: pad 3 (y mod 1000) ++ rest) with (pad 4 y ++ rest).
    apply read_pad0. simpl. lia.
  - destruct (y <? 0) eqn:Hn.
    + apply Z.ltb_lt in Hn. unfold parse_year. rewrite <- app_comm_cons.
      change (Ascii.eqb "-" "+") with false. change (Ascii.eqb "-" "-") with true.
      cbv beta iota. rewrite read_pad0 by (simpl; lia).
      replace (Z.abs y =? 0) with false by (symmetry; apply Z.eqb_neq; lia).
      some_pair_eq.
    + apply Z.ltb_ge in Hn. unfold parse_year. rewrite <- app_comm_cons.
      change (Ascii.eqb "+" "+") with true. cbv beta iota.
      rewrite read_pad0 by (simpl; lia). some_pair_eq.
Qed.

Lemma expect_cons (c : ascii) (r : list ascii) : expect c (c :: r) = Some r.
Proof. unfold expect. rewrite Ascii.eqb_refl. reflexivity. Qed.

Lemma days_from_civil_date (y m d : Z) :
  days_from_civil y m d = days_from_civil y m 1 + d - 1.
Proof.
  unfold days_from_civil, doe_of_civil.
  destruct (m <=? 2), (2 <? m); lia.
Qed.

Lemma MakeDay_civil (y m d : Z) : 1 <= m <= 12 -> MakeDay y (m - 1) d = days_from_civil y m d.
Proof.
  intros Hm. unfold MakeDay.
  rewrite Z.div_small, Z.mod_small by lia.
  replace (y + 0) with y by ring. replace (m - 1 + 1) with m by ring.
  rewrite (days_from_civil_date y m d). reflexivity.
Qed.

(** Parsing the text [toISOString] renders gives back the time value. *)
Lemma parse_toISOString (tv : Z) :
  Z.abs tv <= maxTime ->
  exists s, toISOString (Some tv) = Some s /\ parseISO s = Some tv.
Proof.
  intros Hb. unfold toISOString.
  pose proof (civil_from_days_ok (Day tv)) as Hc.
  destruct (civil_from_days (Day tv)) as [[y mo] dd] eqn:Ec.
  destruct Hc as (Hm & Hd & Hdays & Hy).
  eexists; split; [reflexivity|].
  assert (Hyb : - 1000000 < y < 1000000).
  { unfold Day, msPerDay, maxTime in *.
    pose proof (Z.div_mod tv 86400000 ltac:(lia)).
    pose proof (Z.mod_pos_bound tv 86400000 ltac:(lia)).
    set (dz := tv / 86400000) in *.
    pose proof (Z.div_mod (dz + 719468) 146097 ltac:(lia)).
    pose proof (Z.mod_pos_bound (dz + 719468) 146097 ltac:(lia)).
    set (era := (dz + 719468) / 146097) in *. lia. }
  assert (Hh : 0 <= HourFromTime tv < 24) by (apply Z.mod_pos_bound; lia).
  assert (Hmi : 0 <= MinFromTime tv < 60) by (apply Z.mod_pos_bound; lia).
  assert (Hs : 0 <= SecFromTime tv < 60) by (apply Z.mod_pos_bound; lia).
  assert (Hms : 0 <= msFromTime tv < 1000)
    by (unfold msFromTime, msPerSecond; apply Z.mod_pos_bound; lia).
  unfold parseISO.
  rewrite parse_yearString by exact Hyb. cbv beta iota.
  repeat first [ rewrite expect_cons
               | rewrite read_pad0 by (simpl; lia)
               | progress cbv beta iota ].
  assert (Hcond :
    (1 <=? mo) && (mo <=? 12) && (1 <=? dd) && (dd <=? 31)
    && ((HourFromTime tv <=? 23) && (MinFromTime tv <=? 59) && (SecFromTime tv <=? 59)
        || (HourFromTime tv =? 24) && (MinFromTime tv =? 0) && (SecFromTime tv =? 0)
           && (msFromTime tv =? 0)) = true).
  { rewrite !andb_true_iff, !orb_true_iff, !andb_true_iff, !Z.leb_le. lia. }
  rewrite Hcond, MakeDay_civil, Hdays, time_decompose by exact Hm.
  unfold TimeClip. apply Z.leb_le in Hb. rewrite Hb. reflexivity.
Qed.

End ISO.

(* ------------------------------------------------------------------ *)
(** ** token.service.ts: clock-based helpers *)

(** [calculateExpiryDate(expiresInMinutes)]: [new Date()] reads the clock
    ([now]), then [setMinutes(getMinutes() + expiresInMinutes)]. *)
Definition calculateExpiryDate (z : tz) (now : Z) (expiresInMinutes : Z) : date :=
  let expiresAt : date := Some now in
  match getMinutes z expiresAt with
  | Some mins => setMinutes z expiresAt (mins + expiresInMinutes)
  | None => None
  end.

(** [isTokenExpired(expiresAt)]: [new Date() > expiresAt], the clock
    reading being [now]. *)
Definition isTokenExpired (expiresAt : date) (now : Z) : bool :=
  date_gt (Some now) expiresAt.

(** A zone with a daylight-saving fall-back: America/New_York around its
    2024-11-03 transition at 06:00Z, offset -4h (EDT) before and -5h (EST)
    after; a repeated local time is read with the earlier offset, as
    ECMA-262 prescribes. *)
Definition ny_fallback_2024 : Z := 1730613600000.
Definition EDT : Z := -14400000.
Definition EST : Z := -18000000.
Definition NewYork_2024_11 : tz :=
  {| tza_utc := fun u => if u <? ny_fallback_2024 then EDT else EST;
     tza_local := fun l => if l <? ny_fallback_2024 + EDT then EDT else EST |}.

(* ------------------------------------------------------------------ *)
(** ** Lemmas on the [Date] model *)


(** [setMinutes(getMinutes() + m)] adds [m] minutes to the local time. *)
Lemma calculateExpiryDate_local (z : tz) (now m : Z) :
  calculateExpiryDate z now m = TimeClip (UTC z (LocalTime z now + m * msPerMinute)).
Proof.
  unfold calculateExpiryDate, getMinutes, setMinutes.
  set (lt := LocalTime z now).
  replace (MakeDate (Day lt) (MakeTime (HourFromTime lt) (MinFromTime lt + m)
             (SecFromTime lt) (msFromTime lt)))
    with (lt + m * msPerMinute); [reflexivity|].
  rewrite <- (time_decompose lt) at 1.
  unfold MakeDate, MakeTime. ring.
Qed.

Lemma calculateExpiryDate_fixed (off now m : Z) :
  calculateExpiryDate (fixed_tz off) now m = TimeClip (now + m * msPerMinute).
Proof.
  rewrite calculateExpiryDate_local. unfold UTC, LocalTime; simpl. f_equal. ring.
Qed.

(* ------------------------------------------------------------------ *)
(** ** crypto.randomUUID and generateTokenString *)

Module UUID.

Definition hex_alphabet : list ascii :=
  ["0";"1";"2";"3";"4";"5";"6";"7";"8";"9";"a";"b";"c";"d";"e";"f"]%char.

Definition hex_char (n : Z) : ascii := nth (Z.to_nat n) hex_alphabet "0"%char.

Fixpoint index_of (c : ascii) (l : list ascii) : Z :=
  match l with
  | [] => 0
  | d :: r => if Ascii.eqb c d then 0 else 1 + index_of c r
  end.

Definition hex_val (c : ascii) : Z := index_of c hex_alphabet.

(** Node's kHexBytes table: a byte as two lowercase hex digits. *)
Definition hexByte (b : Z) : list ascii := [hex_char (b / 16); hex_char (b mod 16)].

(** [buf[i] = v] on a Uint8Array index in range. *)
Fixpoint list_set (l : list Z) (i : nat) (v : Z) : list Z :=
  match l, i with
  | [], _ => []
  | _ :: r, O => v :: r
  | x :: r, S j => x :: list_set r j v
  end.

(** serializeUUID(buf): the 16 bytes in hex, a hyphen before bytes 4, 6,
    8 and 10. *)
Definition serializeUUID (buf : list Z) : list ascii :=
  let h i := hexByte (nth i buf 0) in
  h 0%nat ++ h 1%nat ++ h 2%nat ++ h 3%nat ++ ["-"%char] ++
  h 4%nat ++ h 5%nat ++ ["-"%char] ++
  h 6%nat ++ h 7%nat ++ ["-"%char] ++
  h 8%nat ++ h 9%nat ++ ["-"%char] ++
  h 10%nat ++ h 11%nat ++ h 12%nat ++ h 13%nat ++ h 14%nat ++ h 15%nat.

(** randomUUID(): 16 bytes [rnd] from the CSPRNG, then
    [buf[6] = (buf[6] & 0x0f) | 0x40] (version 4) and
    [buf[8] = (buf[8] & 0x3f) | 0x80] (variant 10). *)
Definition setVersionVariant (rnd : list Z) : list Z :=
  let b6 := Z.lor (Z.land (nth 6 rnd 0) 15) 64 in
  let b8 := Z.lor (Z.land (nth 8 rnd 0) 63) 128 in
  list_set (list_set rnd 6 b6) 8 b8.

Definition randomUUID (rnd : list Z) : list ascii := serializeUUID (setVersionVariant rnd).

(** The 122 bits of [rnd] that survive in the identifier: every byte,
    with the top four bits of byte 6 and the top two of byte 8 cleared. *)
Definition random_bits (rnd : list Z) : list Z :=
  list_set (list_set rnd 6 (Z.land (nth 6 rnd 0) 15)) 8 (Z.land (nth 8 rnd 0) 63).

Definition is_byte (b : Z) : Prop := 0 <= b < 256.

Fixpoint decodeHex (l : list ascii) : list Z :=
  match l with
  | c1 :: c2 :: r => (hex_val c1 * 16 + hex_val c2) :: decodeHex r
  | _ => []
  end.

(** Reading an identifier back: drop the hyphens, read the hex pairs. *)
Definition not_hyphen (c : ascii) : bool := negb (Ascii.eqb c "-"%char).
Definition decodeUUID (s : list ascii) : list Z := decodeHex (filter not_hyphen s).

Lemma hex_char_in (n : Z) : In (hex_char n) hex_alphabet.
Proof.
  unfold hex_char. destruct (Nat.lt_ge_cases (Z.to_nat n) (List.length hex_alphabet)) as [H|H].
  - apply nth_In; exact H.
  - rewrite nth_overflow by exact H. simpl; auto.
Qed.

Lemma hex_val_char (n : Z) : 0 <= n < 16 -> hex_val (hex_char n) = n.
Proof.
  intros Hn.
  assert (Hall : all_below 16 (fun k => hex_val (hex_char k) =? k) = true)
    by reflexivity.
  apply Z.eqb_eq. apply (all_below_spec 16 _ Hall). simpl; lia.
Qed.

Lemma hex_char_not_hyphen (n : Z) : not_hyphen (hex_char n) = true.
Proof.
  pose proof (hex_char_in n) as H.
  unfold not_hyphen. destruct (Ascii.eqb (hex_char n) "-"%char) eqn:E; [|reflexivity].
  apply Ascii.eqb_eq in E. rewrite E in H. simpl in H. intuition discriminate.
Qed.

Lemma filter_hexByte (b : Z) (r : list ascii) :
  filter not_hyphen (hexByte b ++ r) = hexByte b ++ filter not_hyphen r.
Proof. simpl. rewrite !hex_char_not_hyphen. reflexivity. Qed.

Lemma decodeHex_hexByte (b : Z) (r : list ascii) :
  is_byte b -> decodeHex (hexByte b ++ r) = b :: decodeHex r.
Proof.
  unfold is_byte; intros Hb. simpl.
  rewrite !hex_val_char.
  - f_equal. pose proof (Z.div_mod b 16 ltac:(lia)). lia.
  - apply Z.mod_pos_bound; lia.
  - split; [apply Z.div_pos; lia | apply Z.div_lt_upper_bound; lia].
Qed.

(** Facts about the version and variant bytes, checked on all 256 bytes. *)
Definition byte_facts (b : Z) : bool :=
  let v := Z.lor (Z.land b 15) 64 in
  let w := Z.lor (Z.land b 63) 128 in
  (v / 16 =? 4) && (0 <=? v) && (v <? 256) && (Z.land v 15 =? Z.land b 15)
  && (8 <=? w / 16) && (w / 16 <? 12) && (0 <=? w) && (w <? 256)
  && (Z.land w 63 =? Z.land b 63)
  && (Z.lor (Z.land (Z.land b 15) 15) 64 =? v)
  && (Z.lor (Z.land (Z.land b 63) 63) 128 =? w).

Lemma byte_facts_ok (b : Z) : is_byte b -> byte_facts b = true.
Proof.
  intros Hb. apply (all_below_spec 256); [vm_compute; reflexivity | exact Hb].
Qed.

Ltac destruct16 l :=
  let Hl := fresh "Hlen" in
  intros Hl;
  destruct l as [|b0 [|b1 [|b2 [|b3 [|b4 [|b5 [|b6 [|b7 [|b8 [|b9 [|b10 [|b11
    [|b12 [|b13 [|b14 [|b15 tl]]]]]]]]]]]]]]]];
  simpl in Hl; try discriminate;
  destruct tl; [clear Hl|discriminate].

Ltac forall_bytes :=
  repeat match goal with
         | H : Forall _ (_ :: _) |- _ => inversion H; subst; clear H
         | H : Forall _ [] |- _ => clear H
         end.

Ltac byte_facts_at b F :=
  match goal with H : is_byte b |- _ => pose proof (byte_facts_ok b H) as F end.

Lemma filter_hyphen (r : list ascii) : filter not_hyphen ("-"%char :: r) = filter not_hyphen r.
Proof. reflexivity. Qed.

Lemma filter_hexByte_end (b : Z) : filter not_hyphen (hexByte b) = hexByte b.
Proof. rewrite <- (app_nil_r (hexByte b)). apply filter_hexByte. Qed.

Lemma decodeHex_hexByte_end (b : Z) : is_byte b -> decodeHex (hexByte b) = [b].
Proof. intros Hb. rewrite <- (app_nil_r (hexByte b)). apply decodeHex_hexByte, Hb. Qed.

(** The identifier gives back the 16 bytes it was made from. *)
Lemma decode_serializeUUID (buf : list Z) :
  List.length buf = 16%nat -> Forall is_byte buf -> decodeUUID (serializeUUID buf) = buf.
Proof.
  destruct16 buf. intros Hb. forall_bytes.
  unfold decodeUUID, serializeUUID. cbn [nth app].
  repeat (rewrite filter_hexByte || rewrite filter_hyphen).
  rewrite filter_hexByte_end.
  repeat (rewrite decodeHex_hexByte by assumption).
  rewrite decodeHex_hexByte_end by assumption. reflexivity.
Qed.

Lemma setVersionVariant_shape (rnd : list Z) :
  List.length rnd = 16%nat -> Forall is_byte rnd ->
  List.length (setVersionVariant rnd) = 16%nat /\ Forall is_byte (setVersionVariant rnd).
Proof.
  destruct16 rnd. intros Hb. forall_bytes.
  byte_facts_at b6 F6. byte_facts_at b8 F8.
  unfold byte_facts in F6, F8. rewrite !andb_true_iff, ?Z.eqb_eq, ?Z.leb_le, ?Z.ltb_lt in F6, F8.
  split; [reflexivity|]. cbn [setVersionVariant nth list_set].
  unfold is_byte in *. repeat (apply Forall_cons; [lia|]). apply Forall_nil.
Qed.

Lemma decode_randomUUID (rnd : list Z) :
  List.length rnd = 16%nat -> Forall is_byte rnd ->
  decodeUUID (randomUUID rnd) = setVersionVariant rnd.
Proof.
  intros Hl Hb. destruct (setVersionVariant_shape rnd Hl Hb).
  apply decode_serializeUUID; assumption.
Qed.

(** Setting the version and variant bits only depends on the 122 bits kept. *)
Lemma setVersionVariant_random_bits (rnd : list Z) :
  List.length rnd = 16%nat -> Forall is_byte rnd ->
  setVersionVariant (random_bits rnd) = setVersionVariant rnd.
Proof.
  destruct16 rnd. intros Hb. forall_bytes.
  byte_facts_at b6 F6. byte_facts_at b8 F8.
  unfold byte_facts in F6, F8. rewrite !andb_true_iff, ?Z.eqb_eq in F6, F8.
  cbn [setVersionVariant random_bits nth list_set].
  repeat match goal with H : _ /\ _ |- _ => destruct H end.
  congruence.
Qed.

Lemma random_bits_setVersionVariant (rnd : list Z) :
  List.length rnd = 16%nat -> Forall is_byte rnd ->
  random_bits (setVersionVariant rnd) = random_bits rnd.
Proof.
  destruct16 rnd. intros Hb. forall_bytes.
  byte_facts_at b6 F6. byte_facts_at b8 F8.
  unfold byte_facts in F6, F8. rewrite !andb_true_iff, ?Z.eqb_eq in F6, F8.
  cbn [setVersionVariant random_bits nth list_set].
  repeat match goal with H : _ /\ _ |- _ => destruct H end.
  congruence.
Qed.

(** The canonical 8-4-4-4-12 form, version 4 and variant 10. *)
Lemma randomUUID_format (rnd : list Z) :
  List.length rnd = 16%nat -> Forall is_byte rnd ->
  exists g1 g2 g3 g4 g5,
    randomUUID rnd = g1 ++ "-"%char :: g2 ++ "-"%char :: g3 ++ "-"%char :: g4 ++ "-"%char :: g5 /\
    List.length g1 = 8%nat /\ List.length g2 = 4%nat /\ List.length g3 = 4%nat /\
    List.length g4 = 4%nat /\ List.length g5 = 12%nat /\
    Forall (fun c => In c hex_alphabet) (g1 ++ g2 ++ g3 ++ g4 ++ g5) /\
    hd "0"%char g3 = "4"%char /\ In (hd "0"%char g4) ["8"; "9"; "a"; "b"]%char.
Proof.
  destruct16 rnd. intros Hb. forall_bytes.
  byte_facts_at b6 F6. byte_facts_at b8 F8.
  unfold byte_facts in F6, F8. rewrite !andb_true_iff, ?Z.eqb_eq, ?Z.leb_le, ?Z.ltb_lt in F6, F8.
  repeat match goal with H : _ /\ _ |- _ => destruct H end.
  unfold randomUUID, setVersionVariant, serializeUUID. cbn [nth list_set].
  exists (hexByte b0 ++ hexByte b1 ++ hexByte b2 ++ hexByte b3),
         (hexByte b4 ++ hexByte b5),
         (hexByte (Z.lor (Z.land b6 15) 64) ++ hexByte b7),
         (hexByte (Z.lor (Z.land b8 63) 128) ++ hexByte b9),
         (hexByte b10 ++ hexByte b11 ++ hexByte b12 ++ hexByte b13 ++ hexByte b14 ++ hexByte b15).
  unfold hexByte. cbn [app hd List.length].
  split; [reflexivity|]. do 5 (split; [reflexivity|]).
  split; [repeat (apply Forall_cons; [apply hex_char_in|]); apply Forall_nil|].
  split.
  - match goal with H : Z.lor (Z.land b6 15) 64 / 16 = 4 |- _ => rewrite H end. reflexivity.
  - assert (Hw : Z.lor (Z.land b8 63) 128 / 16 = 8 \/ Z.lor (Z.land b8 63) 128 / 16 = 9 \/
                 Z.lor (Z.land b8 63) 128 / 16 = 10 \/ Z.lor (Z.land b8 63) 128 / 16 = 11) by lia.
    destruct Hw as [E|[E|[E|E]]]; rewrite E; simpl; tauto.
Qed.

End UUID.

(** [generateTokenString()]: [`token_${randomUUID()}`]. *)
Definition generateTokenString (rnd : list Z) : string :=
  ("token_" ++ string_of_list_ascii (UUID.randomUUID rnd))%string.


(* ------------------------------------------------------------------ *)
(** ** Token records and the tokens table *)

(** [interface Token] (token.type.ts), one row of the [tokens] table;
    [createdAt] and [expiresAt] are TIMESTAMP(3) columns, read back as
    valid Dates, held here as their time values (ms). *)
Record Token := mkToken {
  id : string;
  token : string;
  userId : string;
  scopes : list string;
  createdAt : Z;
  expiresAt : Z
}.

(** [interface TokenResponse] *)
Record TokenResponse := mkTokenResponse {
  r_id : string;
  r_token : string;
  r_userId : string;
  r_scopes : list string;
  r_createdAt : string;
  r_expiresAt : string
}.

(** The table, rows in insertion order. *)
Definition store := list Token.

(** [prisma.token.create({ data: { token, userId, scopes, expiresAt } })]:
    [id] is the client-generated primary key, [createdAt] takes the
    column default CURRENT_TIMESTAMP ([dbNow], the store's clock at the
    insert). The insert fails on an Invalid Date and on a duplicate
    [id] or [token] (primary key and unique index [tokens_token_key]). *)
Definition prisma_token_create (st : store) (newId : string) (dbNow : Z)
    (tok uid : string) (sc : list string) (exp : date) : option Token * store :=
  match exp with
  | None => (None, st)
  | Some e =>
      if existsb (fun r => String.eqb (id r) newId || String.eqb (token r) tok) st
      then (None, st)
      else
        let row := mkToken newId tok uid sc dbNow e in
        (Some row, st ++ [row])
  end.

(** [createToken(userId, scopes, expiresInMinutes)]: [rnd] are the bytes
    randomUUID draws, [now] the service's clock when calculateExpiryDate
    runs, [newId] and [dbNow] what the insert assigns. *)
Definition createToken (z : tz) (rnd : list Z) (now : Z) (newId : string) (dbNow : Z)
    (st : store) (uid : string) (sc : list string) (expiresInMinutes : Z)
    : option Token * store :=
  let tok := generateTokenString rnd in
  let exp := calculateExpiryDate z now expiresInMinutes in
  prisma_token_create st newId dbNow tok uid sc exp.

(** [orderBy: { createdAt: 'desc' }]: rows sorted by [createdAt], most
    recent first. The order among equal [createdAt] is the store's; this
    model keeps table order among them. *)
Fixpoint insert_desc (r : Token) (l : list Token) : list Token :=
  match l with
  | [] => [r]
  | x :: xs => if createdAt x <? createdAt r then r :: x :: xs else x :: insert_desc r xs
  end.

Fixpoint sort_desc (l : list Token) : list Token :=
  match l with
  | [] => []
  | x :: xs => insert_desc x (sort_desc xs)
  end.

(** [where: { userId, expiresAt: { gt: now } }] *)
Definition active_filter (uid : string) (now : Z) (r : Token) : bool :=
  String.eqb (userId r) uid && (now <? expiresAt r).

(** [prisma.token.findMany(...)]: a read, the table is returned as is. *)
Definition prisma_token_findMany (st : store) (uid : string) (now : Z) : list Token * store :=
  (sort_desc (filter (active_filter uid now) st), st).

(** [getActiveTokensForUser(userId)]: [now] is [new Date()]. *)
Definition getActiveTokensForUser (st : store) (uid : string) (now : Z) : list Token * store :=
  prisma_token_findMany st uid now.

(** [prisma.token.deleteMany({ where: { expiresAt: { lte: now } } })]: the
    rows expiring at or before [now] are removed, the others kept in table
    order; [count] is the number removed. *)
Definition prisma_token_deleteMany (st : store) (now : Z) : Z * store :=
  (Z.of_nat (List.length (filter (fun r => expiresAt r <=? now) st)),
   filter (fun r => negb (expiresAt r <=? now)) st).

(** [deleteExpiredTokens()]: [now] is [new Date()]; returns [result.count]. *)
Definition deleteExpiredTokens (st : store) (now : Z) : Z * store :=
  prisma_token_deleteMany st now.

(** [serializeToken(token)]; [None] when [toISOString] throws. *)
Definition serializeToken (t : Token) : option TokenResponse :=
  match ISO.toISOString (Some (createdAt t)), ISO.toISOString (Some (expiresAt t)) with
  | Some c, Some e =>
      Some (mkTokenResponse (id t) (token t) (userId t) (scopes t)
              (string_of_list_ascii c) (string_of_list_ascii e))
  | _, _ => None
  end.

(** [Date.parse] on a string, through the ISO format. *)
Definition Date_parse (s : string) : date := ISO.parseISO (list_ascii_of_string s).

(** *** Sorting lemmas *)

Definition desc_rel (a b : Token) : Prop := createdAt b <= createdAt a.

Lemma insert_desc_perm (r : Token) (l : list Token) : Permutation (insert_desc r l) (r :: l).
Proof.
  induction l as [|x xs IH]; simpl; [auto|].
  destruct (createdAt x <? createdAt r); [auto|].
  eapply perm_trans; [apply perm_skip, IH|apply perm_swap].
Qed.

Lemma sort_desc_perm (l : list Token) : Permutation (sort_desc l) l.
Proof.
  induction l as [|x xs IH]; simpl; [auto|].
  eapply perm_trans; [apply insert_desc_perm|auto].
Qed.

Lemma insert_desc_sorted (r : Token) (l : list Token) :
  Sorted desc_rel l -> Sorted desc_rel (insert_desc r l).
Proof.
  induction l as [|x xs IH]; simpl; intros Hs; [auto|].
  inversion Hs as [|? ? Hs' Hhd]; subst.
  destruct (createdAt x <? createdAt r) eqn:E.
  - apply Z.ltb_lt in E. constructor; [exact Hs|]. constructor. unfold desc_rel; lia.
  - apply Z.ltb_ge in E. constructor; [apply IH, Hs'|].
    destruct xs as [|y ys]; simpl.
    + constructor. unfold desc_rel; lia.
    + inversion Hhd; subst.
      destruct (createdAt y <? createdAt r); constructor; unfold desc_rel in *; lia.
Qed.

Lemma sort_desc_sorted (l : list Token) : Sorted desc_rel (sort_desc l).
Proof. induction l; simpl; [constructor|apply insert_desc_sorted; assumption]. Qed.

(* ------------------------------------------------------------------ *)
(** ** JavaScript values and the Zod schemas of token.validation.ts *)

Module Zod.

(** A JavaScript number: a finite value (a rational), NaN or an infinity. *)
Inductive number := NFinite (q : Q) | NNaN | NPosInf | NNegInf.

(** JavaScript values as the schemas receive them (a parsed JSON body, or
    an object built by the controller). *)
Inductive value :=
| JUndefined
| JNull
| JBool (b : bool)
| JNum (n : number)
| JStr (s : string)
| JArr (xs : list value)
| JObj (kvs : list (string * value)).

Fixpoint get (k : string) (kvs : list (string * value)) : value :=
  match kvs with
  | [] => JUndefined
  | (k', v) :: r => if String.eqb k k' then v else get k r
  end.

Inductive issue_code := invalid_type | too_small | too_big | not_integer.
Record issue := mkIssue { path : list string; code : issue_code }.

(** Number.isInteger *)
Definition isInteger (n : number) : bool :=
  match n with NFinite q => Z.rem (Qnum q) (Zpos (Qden q)) =? 0 | _ => false end.
Definition num_gt0 (n : number) : bool :=
  match n with NFinite q => negb (Qle_bool q 0) | NPosInf => true | _ => false end.
Definition num_le (n : number) (bound : Q) : bool :=
  match n with NFinite q => Qle_bool q bound | NNegInf => true | _ => false end.

Definition at_path (p : list string) (c : issue_code) : list issue := [mkIssue p c].

(** [z.string().min(1)] *)
Definition string_min1 (p : list string) (v : value) : list issue :=
  match v with
  | JStr s => if (String.length s <? 1)%nat then at_path p too_small else []
  | _ => at_path p invalid_type
  end.

(** [z.array(z.string().min(1)).min(1)] *)
Definition scopes_schema (p : list string) (v : value) : list issue :=
  match v with
  | JArr xs =>
      (if (List.length xs <? 1)%nat then at_path p too_small else [])
      ++ List.concat (map (string_min1 p) xs)
  | _ => at_path p invalid_type
  end.

(** [z.number().int().positive().max(525600)]; NaN is refused as a type. *)
Definition minutes_schema (p : list string) (v : value) : list issue :=
  match v with
  | JNum NNaN => at_path p invalid_type
  | JNum n =>
      (if isInteger n then [] else at_path p not_integer)
      ++ (if num_gt0 n then [] else at_path p too_small)
      ++ (if num_le n (525600 # 1) then [] else at_path p too_big)
  | _ => at_path p invalid_type
  end.

(** [CreateTokenInput] *)
Record CreateTokenInput := mkInput { in_userId : string; in_scopes : list string; in_minutes : Q }.

Definition as_string (v : value) : string := match v with JStr s => s | _ => EmptyString end.
Definition as_Q (v : value) : Q := match v with JNum (NFinite q) => q | _ => 0%Q end.

(** [createTokenSchema.parse(body)]: the issues of every field are
    collected; with none, the object with its three keys (others
    stripped). *)
Definition createTokenSchema_parse (v : value) : list issue + CreateTokenInput :=
  match v with
  | JObj kvs =>
      let u := get "userId"%string kvs in
      let sc := get "scopes"%string kvs in
      let m := get "expiresInMinutes"%string kvs in
      let issues := string_min1 ["userId"%string] u ++ scopes_schema ["scopes"%string] sc
                    ++ minutes_schema ["expiresInMinutes"%string] m in
      match issues with
      | [] =>
          let scs := match sc with JArr xs => map as_string xs | _ => [] end in
          inr (mkInput (as_string u) scs (as_Q m))
      | _ => inl issues
      end
  | _ => inl (at_path [] invalid_type)
  end.

Definition accepts (v : value) : bool :=
  match createTokenSchema_parse v with inr _ => true | inl _ => false end.

(** The request bodies of the boundary cases. *)
Definition body (u : string) (sc : list string) (m : number) : value :=
  JObj [("userId"%string, JStr u); ("scopes"%string, JArr (map JStr sc)); ("expiresInMinutes"%string, JNum m)].

(** [getTokensSchema.parse(value)]: [z.object({ userId: z.string().min(1) })],
    the object with [userId] alone on success. *)
Definition getTokensSchema_parse (v : value) : list issue + string :=
  match v with
  | JObj kvs =>
      let u := get "userId"%string kvs in
      match string_min1 ["userId"%string] u with
      | [] => inr (as_string u)
      | issues => inl issues
      end
  | _ => inl (at_path [] invalid_type)
  end.

(** *** Which values the create schema accepts *)

(** The create-request rules as the spec words them: an object whose
    [userId] is a non-empty string, whose [scopes] is a non-empty array of
    non-empty strings, and whose [expiresInMinutes] is an integer in
    1..525600. *)
Definition create_request_ok_spec (v : value) : Prop :=
  exists kvs, v = JObj kvs /\
    (exists u, get "userId"%string kvs = JStr u /\ u <> EmptyString) /\
    (exists xs, get "scopes"%string kvs = JArr xs /\ xs <> [] /\
       Forall (fun x => exists s, x = JStr s /\ s <> EmptyString) xs) /\
    (exists q n, get "expiresInMinutes"%string kvs = JNum (NFinite q) /\
       (q == inject_Z n)%Q /\ 0 < n <= 525600).

Lemma app_nil_iff {A : Type} (l1 l2 : list A) : l1 ++ l2 = [] <-> l1 = [] /\ l2 = [].
Proof. split; [apply app_eq_nil|intros [-> ->]; reflexivity]. Qed.

Lemma string_min1_nil (p : list string) (v : value) :
  string_min1 p v = [] <-> exists s, v = JStr s /\ s <> EmptyString.
Proof.
  destruct v; simpl; split; try discriminate;
    try (intros (s' & H & _); discriminate).
  - destruct s as [|c s]; simpl; [discriminate|]. intros _. exists (String c s).
    split; [reflexivity|discriminate].
  - intros (s' & H & Hne). inversion H; subst.
    destruct s' as [|c s']; [contradiction|reflexivity].
Qed.

Lemma concat_map_nil {A B : Type} (f : A -> list B) (xs : list A) :
  List.concat (map f xs) = [] <-> Forall (fun x => f x = []) xs.
Proof.
  induction xs as [|x xs IH]; simpl; [split; auto|].
  rewrite app_nil_iff, IH. split.
  - intros [H1 H2]. constructor; assumption.
  - intros H. inversion H; subst. auto.
Qed.

Lemma scopes_schema_nil (p : list string) (v : value) :
  scopes_schema p v = [] <->
  exists xs, v = JArr xs /\ xs <> [] /\
    Forall (fun x => exists s, x = JStr s /\ s <> EmptyString) xs.
Proof.
  destruct v; simpl; split; try discriminate;
    try (intros (xs' & H & _); discriminate).
  - rewrite app_nil_iff, concat_map_nil. intros [H1 H2].
    exists xs. split; [reflexivity|]. split.
    + intros ->. discriminate.
    + eapply Forall_impl; [|exact H2]. intros a Ha. apply (string_min1_nil p a), Ha.
  - intros (xs' & H & Hne & Hall). inversion H; subst.
    rewrite app_nil_iff, concat_map_nil. split.
    + destruct xs'; [contradiction|reflexivity].
    + eapply Forall_impl; [|exact Hall]. intros a Ha. apply (string_min1_nil p a), Ha.
Qed.

Lemma finite_checks (q : Q) :
  (Z.rem (Qnum q) (Zpos (Qden q)) =? 0) && negb (Qle_bool q 0) && Qle_bool q (525600 # 1) = true
  <-> exists n, (q == inject_Z n)%Q /\ 0 < n <= 525600.
Proof.
  destruct q as [a d]. rewrite !andb_true_iff, negb_true_iff, Z.eqb_eq.
  rewrite Qle_bool_iff. rewrite <- not_true_iff_false, Qle_bool_iff.
  unfold Qle, Qeq, inject_Z; simpl. split.
  - intros ((Hr & Hpos) & Hmax).
    apply Z.rem_divide in Hr; [|lia]. destruct Hr as [k Hk]. subst a.
    exists k. split; [lia|]. split; nia.
  - intros (n & Hn & Hb). replace a with (n * Zpos d) by lia.
    split; [split|].
    + apply Z.rem_mul. lia.
    + nia.
    + nia.
Qed.

Lemma minutes_schema_nil (p : list string) (v : value) :
  minutes_schema p v = [] <->
  exists q n, v = JNum (NFinite q) /\ (q == inject_Z n)%Q /\ 0 < n <= 525600.
Proof.
  destruct v; simpl; split; try discriminate;
    try (intros (q' & n' & H & _); discriminate).
  - destruct n as [q| | |]; try discriminate.
    rewrite !app_nil_iff. intros (H1 & H2 & H3).
    destruct (finite_checks q) as [Hf _].
    destruct (isInteger (NFinite q)) eqn:E1; [|discriminate].
    destruct (num_gt0 (NFinite q)) eqn:E2; [|discriminate].
    destruct (num_le (NFinite q) (525600 # 1)) eqn:E3; [|discriminate].
    simpl in E1, E2, E3. rewrite E1, E2, E3 in Hf.
    destruct (Hf eq_refl) as (n' & Hn & Hb). exists q, n'. auto.
  - intros (q & n' & H & Hq & Hb). inversion H; subst.
    destruct (finite_checks q) as [_ Hf].
    specialize (Hf (ex_intro _ n' (conj Hq Hb))).
    rewrite !andb_true_iff in Hf. destruct Hf as ((E1 & E2) & E3).
    simpl. rewrite E1, E2, E3. reflexivity.
Qed.

Lemma accepts_iff (v : value) : accepts v = true <-> create_request_ok_spec v.
Proof.
  unfold accepts, createTokenSchema_parse, create_request_ok_spec.
  destruct v; try (split; [discriminate|intros (kvs' & H & _); discriminate]).
  destruct (string_min1 ["userId"%string] (get "userId"%string kvs) ++
            scopes_schema ["scopes"%string] (get "scopes"%string kvs) ++
            minutes_schema ["expiresInMinutes"%string] (get "expiresInMinutes"%string kvs))
    eqn:E.
  - split; [intros _|reflexivity].
    rewrite !app_nil_iff in E. destruct E as (E1 & E2 & E3).
    apply string_min1_nil in E1. apply scopes_schema_nil in E2. apply minutes_schema_nil in E3.
    exists kvs. auto.
  - split; [discriminate|].
    intros (kvs' & H & Hu & Hs & Hm). inversion H; subst.
    apply (string_min1_nil ["userId"%string]) in Hu.
    apply (scopes_schema_nil ["scopes"%string]) in Hs.
    apply (minutes_schema_nil ["expiresInMinutes"%string]) in Hm.
    rewrite Hu, Hs, Hm in E. discriminate.
Qed.

End Zod.

(* ------------------------------------------------------------------ *)
(** ** lib/auth.ts *)

(** [validateApiKey(request)]: [apiKey] is [request.headers.get('X-API-Key')]
    ([None] for null), [expectedApiKey] is [process.env.API_KEY] ([None]
    for undefined). [!expectedApiKey] holds for undefined and for the
    empty string. *)
Definition validateApiKey (apiKey expectedApiKey : option string) : bool :=
  let not_configured :=
    match expectedApiKey with None => true | Some e => String.eqb e EmptyString end in
  if not_configured then true
  else
    match apiKey, expectedApiKey with
    | Some k, Some e => String.eqb k e
    | _, _ => false
    end.

(* ------------------------------------------------------------------ *)
(** ** token.controller.ts: createTokenController *)

Inductive ResponseBody :=
| TokenBody (t : TokenResponse)
| ErrorBody (error : string) (details : option (list Zod.issue)).

Record Response := mkResponse { status : Z; resp_body : ResponseBody }.

(** The parts of a POST request the controller reads: the X-API-Key
    header and what [request.json()] yields ([None] when it rejects, the
    body not being JSON). *)
Record Request := mkRequest { hdr_api_key : option string; json_body : option Zod.value }.

(** The effects the handler depends on: [process.env.API_KEY], the time
    zone, the random bytes, the clocks and the id the insert uses. *)
Record Env := mkEnv {
  env_api_key : option string;
  env_tz : tz;
  env_rnd : list Z;
  env_now : Z;
  env_newId : string;
  env_dbNow : Z
}.

Definition unauthorized : Response :=
  mkResponse 401 (ErrorBody "Unauthorized. Valid X-API-Key header required." None).
Definition internal_error : Response := mkResponse 500 (ErrorBody "Internal server error" None).

(** A validated [expiresInMinutes] (an integer) as an integer. *)
Definition Q_to_Z (q : Q) : Z := Qnum q / Zpos (Qden q).

(** [createTokenController(request)]: the try block; a throw that is not
    a ZodError (request.json() rejecting, the insert failing,
    toISOString throwing) lands in the generic catch branch. *)
Definition createTokenController (ev : Env) (st : store) (req : Request) : Response * store :=
  if negb (validateApiKey (hdr_api_key req) (env_api_key ev)) then (unauthorized, st)
  else
    match json_body req with
    | None => (internal_error, st)
    | Some b =>
        match Zod.createTokenSchema_parse b with
        | inl issues => (mkResponse 400 (ErrorBody "Validation failed" (Some issues)), st)
        | inr v =>
            match createToken (env_tz ev) (env_rnd ev) (env_now ev) (env_newId ev)
                    (env_dbNow ev) st (Zod.in_userId v) (Zod.in_scopes v)
                    (Q_to_Z (Zod.in_minutes v)) with
            | (None, st') => (internal_error, st')
            | (Some t, st') =>
                match serializeToken t with
                | Some r => (mkResponse 201 (TokenBody r), st')
                | None => (internal_error, st')
                end
            end
        end
    end.

(* ------------------------------------------------------------------ *)
(** ** token.controller.ts: getTokensController *)

(** The parts of a GET request the controller reads: the X-API-Key header
    and [request.nextUrl.searchParams.get('userId')] ([None] for null). *)
Record GetRequest := mkGetRequest { g_api_key : option string; q_userId : option string }.

Inductive GetBody :=
| TokenList (l : list TokenResponse)
| GetError (error : string) (details : option (list Zod.issue)).

Record GetResponse := mkGetResponse { g_status : Z; g_body : GetBody }.

(** [tokens.map(serializeToken)]: [None] when one of the calls throws. *)
Fixpoint map_serializeToken (l : list Token) : option (list TokenResponse) :=
  match l with
  | [] => Some []
  | t :: r =>
      match serializeToken t with
      | None => None
      | Some x =>
          match map_serializeToken r with
          | Some xs => Some (x :: xs)
          | None => None
          end
      end
  end.

(** [getTokensController(request)]: [env_now] is the [new Date()] of
    getActiveTokensForUser; a throw that is not a ZodError lands in the
    generic catch branch. *)
Definition getTokensController (ev : Env) (st : store) (req : GetRequest) : GetResponse * store :=
  if negb (validateApiKey (g_api_key req) (env_api_key ev)) then
    (mkGetResponse 401 (GetError "Unauthorized. Valid X-API-Key header required." None), st)
  else
    let userId := match q_userId req with Some s => Zod.JStr s | None => Zod.JNull end in
    match Zod.getTokensSchema_parse (Zod.JObj [("userId"%string, userId)]) with
    | inl issues => (mkGetResponse 400 (GetError "Validation failed" (Some issues)), st)
    | inr uid =>
        let '(tokens, st') := getActiveTokensForUser st uid (env_now ev) in
        match map_serializeToken tokens with
        | Some rs => (mkGetResponse 200 (TokenList rs), st')
        | None => (mkGetResponse 500 (GetError "Internal server error" None), st')
        end
    end.

Lemma list_ascii_of_string_append (s1 s2 : string) :
  list_ascii_of_string (s1 ++ s2) = list_ascii_of_string s1 ++ list_ascii_of_string s2.
Proof. induction s1 as [|c s1 IH]; simpl; [reflexivity|]. rewrite IH. reflexivity. Qed.

(* ------------------------------------------------------------------ *)
(** * Properties of the token lifecycle *)

(** C1: [getActiveTokensForUser] returns exactly the rows of the user
    whose [expiresAt] is after the clock reading, each once, most recently
    created first; none of them is expired, and the table is left as it
    was. *)
Theorem getActiveTokensForUser_spec (st : store) (uid : string) (now : Z) :
  let '(res, st') := getActiveTokensForUser st uid now in
  st' = st /\
  Permutation res (filter (active_filter uid now) st) /\
  (forall r, In r res <-> In r st /\ userId r = uid /\ now < expiresAt r) /\
  Sorted desc_rel res /\
  (forall r, In r res -> isTokenExpired (Some (expiresAt r)) now = false).
Proof.
  unfold getActiveTokensForUser, prisma_token_findMany.
  assert (Hin : forall r, In r (sort_desc (filter (active_filter uid now) st)) <->
                     In r st /\ userId r = uid /\ now < expiresAt r).
  { intros r. split.
    - intros H. apply (Permutation_in _ (sort_desc_perm _)) in H.
      apply filter_In in H as [H1 H2]. unfold active_filter in H2.
      apply andb_true_iff in H2 as [H2 H3].
      apply String.eqb_eq in H2. apply Z.ltb_lt in H3. auto.
    - intros (H1 & H2 & H3). apply (Permutation_in _ (Permutation_sym (sort_desc_perm _))).
      apply filter_In. split; [exact H1|]. unfold active_filter.
      apply andb_true_iff. split; [apply String.eqb_eq; exact H2|apply Z.ltb_lt; exact H3]. }
  split; [reflexivity|]. split; [apply sort_desc_perm|]. split; [exact Hin|].
  split; [apply sort_desc_sorted|].
  intros r Hr. apply Hin in Hr as (_ & _ & Hlt). unfold isTokenExpired, date_gt.
  apply Z.ltb_ge. lia.
Qed.

(** C3: [isTokenExpired] holds exactly when the clock reading is strictly
    after the expiry instant: not at the instant itself, yes one
    millisecond after, no one millisecond before. *)
Theorem isTokenExpired_strict (e t : Z) :
  isTokenExpired (Some e) t = (e <? t) /\
  isTokenExpired (Some e) e = false /\
  isTokenExpired (Some e) (e + 1) = true /\
  isTokenExpired (Some e) (e - 1) = false.
Proof.
  unfold isTokenExpired, date_gt. repeat split.
  - apply Z.ltb_irrefl.
  - apply Z.ltb_lt. lia.
  - apply Z.ltb_ge. lia.
Qed.

(** C4 (counterexample): [calculateExpiryDate] does not always add the
    minutes exactly: with 10^12 minutes the Date is past the Date range
    and Invalid, and under America/New_York at the 2024-11-03 fall-back,
    adding 60 minutes to 01:30 EDT lands 120 minutes later (02:30 EST). *)
Lemma calculateExpiryDate_not_exact :
  date_gt (calculateExpiryDate (fixed_tz 0) 0 1000000000000) (Some 0) = false /\
  calculateExpiryDate NewYork_2024_11 (ny_fallback_2024 - 30 * msPerMinute) 60
    <> Some (ny_fallback_2024 - 30 * msPerMinute + 60 * msPerMinute).
Proof. split; [reflexivity|]. vm_compute. discriminate. Qed.

(** C4 (amended): in a process whose time zone has a fixed offset (UTC in
    the container), for a clock reading [t] at or after the epoch and a
    positive [m] with [t + m] minutes inside the Date range,
    [calculateExpiryDate] is exactly [t + m] minutes, hence after [t]. *)
Theorem calculateExpiryDate_adds_minutes (off t m : Z) :
  0 <= t -> 0 < m -> t + m * msPerMinute <= maxTime ->
  calculateExpiryDate (fixed_tz off) t m = Some (t + m * msPerMinute) /\
  date_gt (calculateExpiryDate (fixed_tz off) t m) (Some t) = true.
Proof.
  intros Ht Hm Hr. rewrite calculateExpiryDate_fixed.
  unfold TimeClip, msPerMinute, maxTime in *.
  replace (Z.abs (t + m * 60000) <=? 8640000000000000) with true
    by (symmetry; apply Z.leb_le; lia).
  split; [reflexivity|]. unfold date_gt. apply Z.ltb_lt. lia.
Qed.

Lemma calculateExpiryDate_adds_minutes_witness :
  calculateExpiryDate (fixed_tz 0) 1735689600000 60 = Some (1735689600000 + 60 * msPerMinute) /\
  date_gt (calculateExpiryDate (fixed_tz 0) 1735689600000 60) (Some 1735689600000) = true.
Proof.
  apply (calculateExpiryDate_adds_minutes 0 1735689600000 60);
    unfold msPerMinute, maxTime; lia.
Defined.

(** C6 (counterexample): an API_KEY set to the empty string is a
    configured key, yet a request without the header is let through. *)
Lemma validateApiKey_empty_configured :
  validateApiKey None (Some EmptyString) = true.
Proof. reflexivity. Qed.

(** C6 (amended): [validateApiKey] succeeds exactly when API_KEY is unset
    or empty, or when the header is present and equal to it. *)
Theorem validateApiKey_spec (apiKey expected : option string) :
  validateApiKey apiKey expected = true <->
  expected = None \/ expected = Some EmptyString \/
  (exists s, expected = Some s /\ s <> EmptyString /\ apiKey = Some s).
Proof.
  unfold validateApiKey. destruct expected as [e|]; [|tauto].
  destruct (String.eqb e EmptyString) eqn:He.
  - apply String.eqb_eq in He. subst. tauto.
  - apply String.eqb_neq in He. split.
    + destruct apiKey as [k|]; [|discriminate].
      intros Hk. apply String.eqb_eq in Hk. subst. right; right. eauto.
    + intros [H|[H|(s & Hs & Hne & Hk)]]; try (inversion H; subst; contradiction).
      inversion Hs; subst. apply String.eqb_refl.
Qed.

(** C9: an API_KEY set to the empty string leaves the gate open: every
    request passes, with or without the header. *)
Theorem validateApiKey_empty_is_open (apiKey : option string) :
  validateApiKey apiKey (Some EmptyString) = true.
Proof. reflexivity. Qed.

(** C2 (counterexample): [expiresAt] is computed from the service's clock
    before the insert, [createdAt] by the store at the insert; when the
    insert happens 5 ms later, [expiresAt - createdAt] is 60 minutes less
    5 ms. *)
Lemma createToken_createdAt_gap :
  exists r st',
    createToken (fixed_tz 0) (repeat 0 16) 1735689600000 "id1"%string 1735689600005 []
      "user123"%string ["read"%string; "write"%string] 60 = (Some r, st') /\
    expiresAt r - createdAt r <> 60 * msPerMinute.
Proof.
  eexists; eexists; split; [reflexivity|]. vm_compute. discriminate.
Qed.

(** C2 (amended): in a fixed-offset time zone, a created row has
    [createdAt] the store's insert time and [expiresAt] the service's
    clock reading [now] plus the requested minutes, so
    [expiresAt - createdAt] is the duration less the time from the
    clock reading to the insert. *)
Theorem createToken_expiry_from_service_clock (off : Z) (rnd : list Z) (now : Z)
    (newId : string) (dbNow : Z) (st : store) (uid : string) (sc : list string)
    (m : Z) (r : Token) (st' : store) :
  0 <= now -> 0 < m -> now + m * msPerMinute <= maxTime ->
  createToken (fixed_tz off) rnd now newId dbNow st uid sc m = (Some r, st') ->
  createdAt r = dbNow /\ expiresAt r = now + m * msPerMinute /\
  expiresAt r - createdAt r = m * msPerMinute - (dbNow - now).
Proof.
  intros Hn Hm Hr Hc. unfold createToken in Hc.
  destruct (calculateExpiryDate_adds_minutes off now m Hn Hm Hr) as [He _].
  rewrite He in Hc. unfold prisma_token_create in Hc.
  destruct (existsb _ st); [discriminate|].
  inversion Hc; subst; simpl. repeat split; lia.
Qed.

Lemma createToken_expiry_from_service_clock_witness :
  let r := mkToken "id1"%string (generateTokenString (repeat 0 16)) "user123"%string ["read"%string; "write"%string]
             1735689600005 (1735689600000 + 60 * msPerMinute) in
  createToken (fixed_tz 0) (repeat 0 16) 1735689600000 "id1"%string 1735689600005 []
    "user123"%string ["read"%string; "write"%string] 60 = (Some r, [r]) /\
  expiresAt r - createdAt r = 60 * msPerMinute - 5.
Proof.
  intros r.
  assert (Hc : createToken (fixed_tz 0) (repeat 0 16) 1735689600000 "id1"%string 1735689600005 []
                 "user123"%string ["read"%string; "write"%string] 60 = (Some r, [r])) by reflexivity.
  split; [exact Hc|].
  destruct (createToken_expiry_from_service_clock 0 (repeat 0 16) 1735689600000 "id1"%string
              1735689600005 [] "user123"%string ["read"%string; "write"%string] 60 r [r]) as (_ & _ & Hd);
    [unfold msPerMinute, maxTime; lia .. | exact Hc |].
  rewrite Hd. reflexivity.
Defined.

(** C7: for a row whose timestamps are valid Dates, [serializeToken]
    copies [id], [token], [userId] and [scopes], and renders both
    timestamps as [YYYY-MM-DDTHH:mm:ss.sssZ] text that Date.parse reads
    back to the same instants. *)
Theorem serializeToken_roundtrip (t : Token) :
  Z.abs (createdAt t) <= maxTime -> Z.abs (expiresAt t) <= maxTime ->
  exists resp, serializeToken t = Some resp /\
    r_id resp = id t /\ r_token resp = token t /\ r_userId resp = userId t /\
    r_scopes resp = scopes t /\
    Date_parse (r_createdAt resp) = Some (createdAt t) /\
    Date_parse (r_expiresAt resp) = Some (expiresAt t).
Proof.
  intros Hc He.
  destruct (ISO.parse_toISOString _ Hc) as (sc & Hsc & Hpc).
  destruct (ISO.parse_toISOString _ He) as (se & Hse & Hpe).
  unfold serializeToken. rewrite Hsc, Hse.
  eexists; split; [reflexivity|]. simpl.
  unfold Date_parse. rewrite !list_ascii_of_string_of_list_ascii.
  repeat split; assumption.
Qed.

Lemma serializeToken_roundtrip_witness :
  exists resp,
    serializeToken (mkToken "id1"%string "token_x"%string "user123"%string ["read"%string] 1735725600000 1735729200000)
      = Some resp /\
    r_id resp = "id1"%string /\ r_token resp = "token_x"%string /\ r_userId resp = "user123"%string /\
    r_scopes resp = ["read"%string] /\
    Date_parse (r_createdAt resp) = Some 1735725600000 /\
    Date_parse (r_expiresAt resp) = Some 1735729200000.
Proof.
  apply (serializeToken_roundtrip
           (mkToken "id1"%string "token_x"%string "user123"%string ["read"%string] 1735725600000 1735729200000));
    simpl; unfold maxTime; lia.
Defined.

(** C8: from 16 random bytes, [generateTokenString] is ["token_"%string]
    followed by a 36-character identifier in the 8-4-4-4-12 lowercase hex
    form with version 4 and variant 10; two results coincide exactly when
    the 122 random bits that survive in them coincide. *)
Theorem generateTokenString_format_unique (rnd : list Z) :
  List.length rnd = 16%nat -> Forall UUID.is_byte rnd ->
  (exists g1 g2 g3 g4 g5,
     list_ascii_of_string (generateTokenString rnd) =
       list_ascii_of_string "token_"%string ++
       g1 ++ "-"%char :: g2 ++ "-"%char :: g3 ++ "-"%char :: g4 ++ "-"%char :: g5 /\
     List.length g1 = 8%nat /\ List.length g2 = 4%nat /\ List.length g3 = 4%nat /\
     List.length g4 = 4%nat /\ List.length g5 = 12%nat /\
     Forall (fun c => In c UUID.hex_alphabet) (g1 ++ g2 ++ g3 ++ g4 ++ g5) /\
     hd "0"%char g3 = "4"%char /\ In (hd "0"%char g4) ["8"; "9"; "a"; "b"]%char) /\
  String.length (generateTokenString rnd) = 42%nat /\
  (forall rnd', List.length rnd' = 16%nat -> Forall UUID.is_byte rnd' ->
     generateTokenString rnd = generateTokenString rnd' <->
     UUID.random_bits rnd = UUID.random_bits rnd').
Proof.
  intros Hl Hb.
  destruct (UUID.randomUUID_format rnd Hl Hb)
    as (g1 & g2 & g3 & g4 & g5 & Heq & L1 & L2 & L3 & L4 & L5 & Hhex & Hv & Hw).
  assert (Hstr : forall x, list_ascii_of_string (generateTokenString x) =
                      list_ascii_of_string "token_"%string ++ UUID.randomUUID x).
  { intros x. unfold generateTokenString.
    rewrite list_ascii_of_string_append, list_ascii_of_string_of_list_ascii. reflexivity. }
  split; [exists g1, g2, g3, g4, g5; rewrite Hstr, Heq; tauto|].
  split.
  - rewrite <- (string_of_list_ascii_of_string (generateTokenString rnd)), Hstr, Heq.
    assert (Hlen : forall l, String.length (string_of_list_ascii l) = List.length l).
    { induction l; simpl; auto. }
    rewrite Hlen. simpl. repeat first [rewrite length_app | progress cbn [List.length]]. lia.
  - intros rnd' Hl' Hb'. split.
    + intros Hg. apply (f_equal list_ascii_of_string) in Hg. rewrite !Hstr in Hg.
      apply app_inv_head in Hg. apply (f_equal UUID.decodeUUID) in Hg.
      rewrite !UUID.decode_randomUUID in Hg by assumption.
      rewrite <- (UUID.random_bits_setVersionVariant rnd Hl Hb),
              <- (UUID.random_bits_setVersionVariant rnd' Hl' Hb'), Hg.
      reflexivity.
    + intros Hr. unfold generateTokenString, UUID.randomUUID.
      rewrite <- (UUID.setVersionVariant_random_bits rnd Hl Hb),
              <- (UUID.setVersionVariant_random_bits rnd' Hl' Hb'), Hr.
      reflexivity.
Qed.

Lemma generateTokenString_format_unique_witness :
  List.length (repeat 7 16) = 16%nat /\ Forall UUID.is_byte (repeat 7 16) /\
  String.length (generateTokenString (repeat 7 16)) = 42%nat.
Proof.
  assert (Hl : List.length (repeat 7 16) = 16%nat) by reflexivity.
  assert (Hb : Forall UUID.is_byte (repeat 7 16))
    by (repeat constructor; unfold UUID.is_byte; lia).
  split; [exact Hl|]. split; [exact Hb|].
  exact (proj1 (proj2 (generateTokenString_format_unique (repeat 7 16) Hl Hb))).
Defined.

(** C10 (counterexample): the API-key check runs before the body is
    read, so a request with a non-JSON body and no key, while API_KEY is
    set, gets 401, not 500. *)
Lemma createTokenController_unauthorized_first :
  status (fst (createTokenController
                 (mkEnv (Some "secret"%string) (fixed_tz 0) (repeat 0 16) 0 "id1"%string 0) []
                 (mkRequest None None))) = 401.
Proof. reflexivity. Qed.

(** C10 (amended): once the API-key check passes, a body that is not
    JSON gives 500 with [{ error: "Internal server error"%string }] and no
    details (not 400), and nothing is stored. *)
Theorem createTokenController_unparseable_body (ev : Env) (st : store) (req : Request) :
  validateApiKey (hdr_api_key req) (env_api_key ev) = true ->
  json_body req = None ->
  createTokenController ev st req =
    (mkResponse 500 (ErrorBody "Internal server error"%string None), st).
Proof.
  intros Hk Hb. unfold createTokenController. rewrite Hk, Hb. reflexivity.
Qed.

Lemma createTokenController_unparseable_body_witness :
  createTokenController (mkEnv (Some "secret"%string) (fixed_tz 0) (repeat 0 16) 0 "id1"%string 0) []
    (mkRequest (Some "secret"%string) None) =
    (mkResponse 500 (ErrorBody "Internal server error"%string None), []).
Proof. apply createTokenController_unparseable_body; reflexivity. Defined.

(** C5: [createTokenSchema] accepts a value exactly when it is an object
    with a non-empty string [userId], a non-empty array of non-empty
    strings [scopes] and an integer [expiresInMinutes] in 1..525600; so
    525600 passes, while 525601, 0, -1, 60.5, [scopes: []],
    [scopes: ["read", ""]] and [userId: ""] are refused. *)
Theorem createTokenSchema_accepts_spec :
  (forall v, Zod.accepts v = true <-> Zod.create_request_ok_spec v) /\
  Zod.accepts (Zod.body "user123"%string ["read"%string] (Zod.NFinite (525600 # 1))) = true /\
  Zod.accepts (Zod.body "user123"%string ["read"%string] (Zod.NFinite (525601 # 1))) = false /\
  Zod.accepts (Zod.body "user123"%string ["read"%string] (Zod.NFinite 0)) = false /\
  Zod.accepts (Zod.body "user123"%string ["read"%string] (Zod.NFinite (-1 # 1))) = false /\
  Zod.accepts (Zod.body "user123"%string ["read"%string] (Zod.NFinite (121 # 2))) = false /\
  Zod.accepts (Zod.body "user123"%string [] (Zod.NFinite (60 # 1))) = false /\
  Zod.accepts (Zod.body "user123"%string ["read"%string; ""%string] (Zod.NFinite (60 # 1))) = false /\
  Zod.accepts (Zod.body ""%string ["read"%string] (Zod.NFinite (60 # 1))) = false.
Proof.
  split; [exact Zod.accepts_iff|]. repeat split; vm_compute; reflexivity.
Qed.


(* ------------------------------------------------------------------ *)
(** * Further properties of the services and the controllers *)

(** ** Lemmas shared by the proofs below *)

Lemma getActive_In (st : store) (uid : string) (t : Z) (r : Token) :
  In r (fst (getActiveTokensForUser st uid t)) <->
  In r st /\ userId r = uid /\ t < expiresAt r.
Proof.
  unfold getActiveTokensForUser, prisma_token_findMany; simpl. split.
  - intros H. apply (Permutation_in _ (sort_desc_perm _)) in H.
    apply filter_In in H as [H1 H2]. unfold active_filter in H2.
    apply andb_true_iff in H2 as [H2 H3].
    apply String.eqb_eq in H2. apply Z.ltb_lt in H3. auto.
  - intros (H1 & H2 & H3). apply (Permutation_in _ (Permutation_sym (sort_desc_perm _))).
    apply filter_In. split; [exact H1|]. unfold active_filter.
    apply andb_true_iff. split; [apply String.eqb_eq; exact H2|apply Z.ltb_lt; exact H3].
Qed.

Lemma createToken_effect (z : tz) (rnd : list Z) (now : Z) (newId : string) (dbNow : Z)
    (st : store) (uid : string) (sc : list string) (m : Z) :
  let '(res, st') := createToken z rnd now newId dbNow st uid sc m in
  (res = None /\ st' = st) \/
  (exists r, res = Some r /\ st' = st ++ [r] /\
     id r = newId /\ token r = generateTokenString rnd /\ userId r = uid /\
     scopes r = sc /\ createdAt r = dbNow /\
     calculateExpiryDate z now m = Some (expiresAt r) /\
     (forall x, In x st -> id x <> newId /\ token x <> generateTokenString rnd)).
Proof.
  unfold createToken, prisma_token_create.
  destruct (calculateExpiryDate z now m) as [e|] eqn:He; [|left; auto].
  destruct (existsb _ st) eqn:Ex; [left; auto|].
  right. eexists; repeat split; try reflexivity; try exact He; intros Heq;
    assert (Hx : existsb (fun r => String.eqb (id r) newId ||
                    String.eqb (token r) (generateTokenString rnd)) st = true)
      by (apply existsb_exists; exists x; split; [assumption|];
          apply orb_true_iff; first [left; apply String.eqb_eq; exact Heq
                                   | right; apply String.eqb_eq; exact Heq]);
    congruence.
Qed.



(** Running deleteExpiredTokens again at the same instant removes nothing. *)
Theorem deleteExpiredTokens_idempotent (st : store) (now : Z) :
  let st' := snd (deleteExpiredTokens st now) in
  deleteExpiredTokens st' now = (0, st').
Proof.
  unfold deleteExpiredTokens, prisma_token_deleteMany; simpl.
  induction st as [|r st IH]; simpl; [reflexivity|].
  destruct (expiresAt r <=? now) eqn:E; simpl; [exact IH|].
  rewrite E. simpl. injection IH as H1 H2. rewrite H1, H2. reflexivity.
Qed.

(** Deleting the expired rows at [now] changes no user's list of active
    tokens at any later instant [t]. *)
Theorem deleteExpiredTokens_keeps_active (st : store) (now t : Z) (uid : string) :
  now <= t ->
  fst (getActiveTokensForUser (snd (deleteExpiredTokens st now)) uid t) =
  fst (getActiveTokensForUser st uid t).
Proof.
  intros Ht. unfold getActiveTokensForUser, prisma_token_findMany,
    deleteExpiredTokens, prisma_token_deleteMany; simpl. f_equal.
  induction st as [|r st IH]; simpl; [reflexivity|].
  destruct (expiresAt r <=? now) eqn:E; simpl.
  - rewrite IH. unfold active_filter at 2.
    apply Z.leb_le in E. replace (t <? expiresAt r) with false by (symmetry; apply Z.ltb_ge; lia).
    rewrite andb_false_r. reflexivity.
  - rewrite IH. reflexivity.
Qed.

Lemma deleteExpiredTokens_keeps_active_witness :
  fst (getActiveTokensForUser (snd (deleteExpiredTokens
        [mkToken "a"%string "token_a"%string "u"%string ["read"%string] 0 5; mkToken "b"%string "token_b"%string "u"%string ["read"%string] 1 50] 10)) "u"%string 20) =
  fst (getActiveTokensForUser
        [mkToken "a"%string "token_a"%string "u"%string ["read"%string] 0 5; mkToken "b"%string "token_b"%string "u"%string ["read"%string] 1 50] "u"%string 20).
Proof. apply deleteExpiredTokens_keeps_active. lia. Defined.

(** A token that is not active at an instant is not active at any later
    instant: the list of active tokens only shrinks as time passes. *)
Theorem getActiveTokensForUser_antitone (st : store) (uid : string) (t1 t2 : Z) (r : Token) :
  t1 <= t2 ->
  In r (fst (getActiveTokensForUser st uid t2)) -> In r (fst (getActiveTokensForUser st uid t1)).
Proof.
  intros Ht H. apply getActive_In in H as (H1 & H2 & H3). apply getActive_In. repeat split; auto; lia.
Qed.

Lemma getActiveTokensForUser_antitone_witness :
  In (mkToken "b"%string "token_b"%string "u"%string ["read"%string] 1 50)
     (fst (getActiveTokensForUser [mkToken "b"%string "token_b"%string "u"%string ["read"%string] 1 50] "u"%string 10)).
Proof.
  apply (getActiveTokensForUser_antitone _ _ 10 20); [lia|]. simpl. left. reflexivity.
Defined.

(** createToken either leaves the table unchanged or appends exactly one
    row holding the given user, scopes, the generated token and the new
    id; the primary key and the unique token index stay unique. *)
Theorem createToken_appends_one (z : tz) (rnd : list Z) (now : Z) (newId : string) (dbNow : Z)
    (st : store) (uid : string) (sc : list string) (m : Z) :
  NoDup (map id st) -> NoDup (map token st) ->
  let '(res, st') := createToken z rnd now newId dbNow st uid sc m in
  ((res = None /\ st' = st) \/
   (exists r, res = Some r /\ st' = st ++ [r] /\ id r = newId /\
      token r = generateTokenString rnd /\ userId r = uid /\ scopes r = sc)) /\
  NoDup (map id st') /\ NoDup (map token st').
Proof.
  intros Hi Ht. pose proof (createToken_effect z rnd now newId dbNow st uid sc m) as He.
  destruct (createToken z rnd now newId dbNow st uid sc m) as [res st'].
  cbv beta iota. destruct He as [[-> ->]|(r & -> & -> & H1 & H2 & H3 & H4 & _ & _ & Hx)].
  - auto.
  - split; [right; exists r; repeat split; auto|].
    rewrite !map_app; simpl. split; apply NoDup_app; auto using NoDup_cons, NoDup_nil;
      intros a Ha Hb; destruct Hb as [Hb|[]]; subst a;
      apply in_map_iff in Ha as (x & Hx1 & Hx2);
      destruct (Hx x Hx2) as [Hn1 Hn2]; congruence.
Qed.

Lemma createToken_appends_one_witness :
  NoDup (map id [mkToken "a"%string "token_a"%string "u"%string ["read"%string] 0 5]) /\
  NoDup (map token [mkToken "a"%string "token_a"%string "u"%string ["read"%string] 0 5]) /\
  let '(res, st') := createToken (fixed_tz 0) (repeat 0 16) 0 "b"%string 0
                       [mkToken "a"%string "token_a"%string "u"%string ["read"%string] 0 5] "u"%string ["read"%string] 60 in
  ((res = None /\ st' = [mkToken "a"%string "token_a"%string "u"%string ["read"%string] 0 5]) \/
   (exists r, res = Some r /\ st' = [mkToken "a"%string "token_a"%string "u"%string ["read"%string] 0 5] ++ [r] /\
      id r = "b"%string /\ token r = generateTokenString (repeat 0 16) /\ userId r = "u"%string /\
      scopes r = ["read"%string])) /\
  NoDup (map id st') /\ NoDup (map token st').
Proof.
  assert (H1 : NoDup (map id [mkToken "a"%string "token_a"%string "u"%string ["read"%string] 0 5]))
    by (simpl; constructor; [intros []|constructor]).
  assert (H2 : NoDup (map token [mkToken "a"%string "token_a"%string "u"%string ["read"%string] 0 5]))
    by (simpl; constructor; [intros []|constructor]).
  split; [exact H1|]. split; [exact H2|].
  exact (createToken_appends_one (fixed_tz 0) (repeat 0 16) 0 "b"%string 0
           [mkToken "a"%string "token_a"%string "u"%string ["read"%string] 0 5] "u"%string ["read"%string] 60 H1 H2).
Defined.

(** In a fixed-offset time zone, a token created at clock reading [now]
    for [m] minutes is in its user's list of active tokens at exactly the
    instants before [now + m] minutes. *)
Theorem createToken_active_until_expiry (off : Z) (rnd : list Z) (now : Z) (newId : string)
    (dbNow : Z) (st : store) (uid : string) (sc : list string) (m : Z) (r : Token) (st' : store) :
  0 <= now -> 0 < m -> now + m * msPerMinute <= maxTime ->
  createToken (fixed_tz off) rnd now newId dbNow st uid sc m = (Some r, st') ->
  forall t, In r (fst (getActiveTokensForUser st' uid t)) <-> t < now + m * msPerMinute.
Proof.
  intros Hn Hm Hr Hc t.
  pose proof (createToken_effect (fixed_tz off) rnd now newId dbNow st uid sc m) as He.
  rewrite Hc in He. destruct He as [[Hd _]|(r' & Hr' & -> & _ & _ & Hu & _ & _ & Hx & _)];
    [discriminate|].
  injection Hr' as <-.
  rewrite calculateExpiryDate_fixed in Hx. unfold TimeClip in Hx.
  replace (Z.abs (now + m * msPerMinute) <=? maxTime) with true in Hx
    by (symmetry; apply Z.leb_le; unfold msPerMinute in *; lia).
  injection Hx as Hx.
  rewrite getActive_In. split.
  - intros (_ & _ & H). lia.
  - intros H. split; [apply in_or_app; right; left; reflexivity|]. split; [exact Hu|lia].
Qed.

Lemma createToken_active_until_expiry_witness :
  let r := mkToken "id1"%string (generateTokenString (repeat 0 16)) "u"%string ["read"%string] 5 (60 * msPerMinute) in
  createToken (fixed_tz 0) (repeat 0 16) 0 "id1"%string 5 [] "u"%string ["read"%string] 60 = (Some r, [r]) /\
  In r (fst (getActiveTokensForUser [r] "u"%string (60 * msPerMinute - 1))).
Proof.
  intros r.
  assert (Hc : createToken (fixed_tz 0) (repeat 0 16) 0 "id1"%string 5 [] "u"%string ["read"%string] 60 = (Some r, [r]))
    by reflexivity.
  split; [exact Hc|].
  apply (createToken_active_until_expiry 0 (repeat 0 16) 0 "id1"%string 5 [] "u"%string ["read"%string] 60 r [r]);
    [unfold msPerMinute, maxTime; lia .. | exact Hc | unfold msPerMinute; lia].
Defined.

(** Creating a token for one user changes no other user's list of active
    tokens, at any instant. *)
Theorem createToken_other_users (z : tz) (rnd : list Z) (now : Z) (newId : string) (dbNow : Z)
    (st : store) (uid uid' : string) (sc : list string) (m t : Z) :
  uid' <> uid ->
  fst (getActiveTokensForUser (snd (createToken z rnd now newId dbNow st uid sc m)) uid' t) =
  fst (getActiveTokensForUser st uid' t).
Proof.
  intros Hne. pose proof (createToken_effect z rnd now newId dbNow st uid sc m) as He.
  destruct (createToken z rnd now newId dbNow st uid sc m) as [res st'].
  cbv beta iota in He. simpl.
  destruct He as [[_ ->]|(r & _ & -> & _ & _ & Hu & _)]; [reflexivity|].
  unfold getActiveTokensForUser, prisma_token_findMany; simpl.
  rewrite filter_app. simpl. unfold active_filter at 2.
  replace (String.eqb (userId r) uid') with false
    by (symmetry; apply String.eqb_neq; congruence).
  rewrite app_nil_r. reflexivity.
Qed.

Lemma createToken_other_users_witness :
  fst (getActiveTokensForUser (snd (createToken (fixed_tz 0) (repeat 0 16) 0 "id1"%string 5
        [mkToken "a"%string "token_a"%string "v"%string ["read"%string] 0 100] "u"%string ["read"%string] 60)) "v"%string 10) =
  fst (getActiveTokensForUser [mkToken "a"%string "token_a"%string "v"%string ["read"%string] 0 100] "v"%string 10).
Proof. apply createToken_other_users. discriminate. Defined.

Lemma string_min1_path (p : list string) (v : Zod.value) (i : Zod.issue) :
  In i (Zod.string_min1 p v) -> Zod.path i = p.
Proof.
  destruct v; simpl; try (intros [<-|[]]; reflexivity).
  destruct (String.length s <? 1)%nat; simpl; [intros [<-|[]]; reflexivity|intros []].
Qed.

Lemma scopes_schema_path (p : list string) (v : Zod.value) (i : Zod.issue) :
  In i (Zod.scopes_schema p v) -> Zod.path i = p.
Proof.
  destruct v; simpl; try (intros [<-|[]]; reflexivity).
  intros H. apply in_app_or in H as [H|H].
  - destruct (List.length xs <? 1)%nat; simpl in H; [destruct H as [<-|[]]; reflexivity|destruct H].
  - apply in_concat in H as (l & Hl & Hi). apply in_map_iff in Hl as (x & <- & _).
    exact (string_min1_path p x i Hi).
Qed.

Lemma minutes_schema_path (p : list string) (v : Zod.value) (i : Zod.issue) :
  In i (Zod.minutes_schema p v) -> Zod.path i = p.
Proof.
  destruct v; simpl; try (intros [<-|[]]; reflexivity).
  destruct n; try (intros [<-|[]]; reflexivity);
  intros H; repeat (apply in_app_or in H as [H|H]);
  repeat match type of H with
  | In _ (if ?c then _ else _) => destruct c; simpl in H
  end; try destruct H as [<-|[]]; try destruct H; reflexivity.
Qed.

Lemma Q_to_Z_inject (q : Q) (n : Z) : (q == inject_Z n)%Q -> Q_to_Z q = n.
Proof.
  destruct q as [a d]. unfold Qeq, inject_Z, Q_to_Z; simpl. intros H.
  rewrite Z.mul_1_r in H. rewrite H. apply Z.div_mul. lia.
Qed.

Lemma map_as_string (xs : list Zod.value) :
  Forall (fun x => exists s, x = Zod.JStr s /\ s <> EmptyString) xs ->
  xs = map Zod.JStr (map Zod.as_string xs) /\ Forall (fun s => s <> EmptyString) (map Zod.as_string xs).
Proof.
  induction 1 as [|x xs (s & -> & Hs) _ [IH1 IH2]]; simpl; [auto|].
  split; [rewrite <- IH1; reflexivity|constructor; assumption].
Qed.

(** When createTokenSchema accepts a value, it is an object and the
    parsed input is read off its three keys: [userId] and the scopes as
    given (non-empty strings, at least one scope), and [expiresInMinutes]
    an integer in 1..525600, which the controller passes on unchanged. *)
Theorem createTokenSchema_parse_output (v : Zod.value) (x : Zod.CreateTokenInput) :
  Zod.createTokenSchema_parse v = inr x ->
  exists kvs, v = Zod.JObj kvs /\
    Zod.get "userId"%string kvs = Zod.JStr (Zod.in_userId x) /\ Zod.in_userId x <> EmptyString /\
    Zod.get "scopes"%string kvs = Zod.JArr (map Zod.JStr (Zod.in_scopes x)) /\ Zod.in_scopes x <> [] /\
    Forall (fun s => s <> EmptyString) (Zod.in_scopes x) /\
    Zod.get "expiresInMinutes"%string kvs = Zod.JNum (Zod.NFinite (Zod.in_minutes x)) /\
    (Zod.in_minutes x == inject_Z (Q_to_Z (Zod.in_minutes x)))%Q /\
    0 < Q_to_Z (Zod.in_minutes x) <= 525600.
Proof.
  destruct v; simpl; try discriminate.
  match goal with |- context [match ?l with [] => _ | _ :: _ => _ end] => destruct l eqn:E end;
    [|discriminate].
  intros H. injection H as <-. simpl.
  apply Zod.app_nil_iff in E as [E1 E]. apply Zod.app_nil_iff in E as [E2 E3].
  apply Zod.string_min1_nil in E1 as (u & Hu & Hne).
  apply Zod.scopes_schema_nil in E2 as (xs & Hxs & Hxne & Hall).
  apply Zod.minutes_schema_nil in E3 as (q & n & Hq & Hqn & Hb).
  destruct (map_as_string xs Hall) as [Hm Hs].
  exists kvs. rewrite Hu, Hxs, Hq. simpl. rewrite (Q_to_Z_inject q n Hqn).
  split; [reflexivity|]. split; [reflexivity|]. split; [exact Hne|].
  split; [rewrite <- Hm; reflexivity|].
  split; [destruct xs; [contradiction|discriminate]|].
  split; [exact Hs|]. split; [reflexivity|]. split; [exact Hqn|exact Hb].
Qed.

Lemma createTokenSchema_parse_output_witness :
  exists x, Zod.createTokenSchema_parse (Zod.body "user123"%string ["read"%string] (Zod.NFinite (60 # 1))) = inr x /\
    0 < Q_to_Z (Zod.in_minutes x) <= 525600.
Proof.
  exists (Zod.mkInput "user123"%string ["read"%string] (60 # 1)). split; [reflexivity|].
  destruct (createTokenSchema_parse_output (Zod.body "user123"%string ["read"%string] (Zod.NFinite (60 # 1)))
              (Zod.mkInput "user123"%string ["read"%string] (60 # 1)) eq_refl)
    as (_ & _ & _ & _ & _ & _ & _ & _ & _ & Hb).
  exact Hb.
Defined.

Lemma nonempty_issue (l : list Zod.issue) (p : list string) :
  (forall i, In i l -> Zod.path i = p) ->
  (exists i, In i l /\ head (Zod.path i) = head p) <-> l <> [].
Proof.
  intros Hp. split.
  - intros (i & Hi & _) ->. destruct Hi.
  - destruct l as [|i l]; [contradiction|]. intros _. exists i. split; [left; reflexivity|].
    rewrite (Hp i (or_introl eq_refl)). reflexivity.
Qed.

(** When createTokenSchema rejects an object, it reports at least one
    issue, and it reports an issue under a field exactly when that field
    breaks its rule: every field is checked, not only the first failing
    one. *)
Theorem createTokenSchema_issues (kvs : list (string * Zod.value)) (is : list Zod.issue) :
  Zod.createTokenSchema_parse (Zod.JObj kvs) = inl is ->
  is <> [] /\
  ((exists i, In i is /\ head (Zod.path i) = Some "userId"%string) <->
     ~ (exists u, Zod.get "userId"%string kvs = Zod.JStr u /\ u <> EmptyString)) /\
  ((exists i, In i is /\ head (Zod.path i) = Some "scopes"%string) <->
     ~ (exists xs, Zod.get "scopes"%string kvs = Zod.JArr xs /\ xs <> [] /\
          Forall (fun x => exists s, x = Zod.JStr s /\ s <> EmptyString) xs)) /\
  ((exists i, In i is /\ head (Zod.path i) = Some "expiresInMinutes"%string) <->
     ~ (exists q n, Zod.get "expiresInMinutes"%string kvs = Zod.JNum (Zod.NFinite q) /\
          (q == inject_Z n)%Q /\ 0 < n <= 525600)).
Proof.
  simpl.
  set (A := Zod.string_min1 ["userId"%string] (Zod.get "userId"%string kvs)).
  set (B := Zod.scopes_schema ["scopes"%string] (Zod.get "scopes"%string kvs)).
  set (C := Zod.minutes_schema ["expiresInMinutes"%string] (Zod.get "expiresInMinutes"%string kvs)).
  destruct (A ++ B ++ C) as [|i0 l] eqn:E; [discriminate|].
  intros H. injection H as <-. rewrite <- E.
  assert (HA := string_min1_path ["userId"%string] (Zod.get "userId"%string kvs)).
  assert (HB := scopes_schema_path ["scopes"%string] (Zod.get "scopes"%string kvs)).
  assert (HC := minutes_schema_path ["expiresInMinutes"%string] (Zod.get "expiresInMinutes"%string kvs)).
  fold A in HA. fold B in HB. fold C in HC.
  assert (Hsplit : forall f, (exists i, In i (A ++ B ++ C) /\ head (Zod.path i) = Some f) <->
      (exists i, In i A /\ head (Zod.path i) = Some f) \/
      (exists i, In i B /\ head (Zod.path i) = Some f) \/
      (exists i, In i C /\ head (Zod.path i) = Some f)).
  { intros f. split.
    - intros (i & Hi & Hf). apply in_app_or in Hi as [Hi|Hi]; [left; eauto|].
      apply in_app_or in Hi as [Hi|Hi]; right; [left|right]; eauto.
    - intros [(i & Hi & Hf)|[(i & Hi & Hf)|(i & Hi & Hf)]]; exists i; split; auto;
        apply in_or_app; auto; right; apply in_or_app; auto. }
  assert (Hno : forall l p f, (forall i, In i l -> Zod.path i = p) -> head p <> Some f ->
                 ~ exists i, In i l /\ head (Zod.path i) = Some f).
  { intros l0 p f Hp Hne (i & Hi & Hf). rewrite (Hp i Hi) in Hf. contradiction. }
  split; [rewrite E; discriminate|].
  split; [|split].
  - rewrite Hsplit, (nonempty_issue A ["userId"%string] HA).
    rewrite <- (Zod.string_min1_nil ["userId"%string]). fold A.
    split; [|tauto]. intros [H|[H|H]]; [exact H| |];
      exfalso; revert H; (eapply Hno; [eassumption|discriminate]).
  - rewrite Hsplit, (nonempty_issue B ["scopes"%string] HB).
    rewrite <- (Zod.scopes_schema_nil ["scopes"%string]). fold B.
    split; [|tauto]. intros [H|[H|H]]; [| exact H |];
      exfalso; revert H; (eapply Hno; [eassumption|discriminate]).
  - rewrite Hsplit, (nonempty_issue C ["expiresInMinutes"%string] HC).
    rewrite <- (Zod.minutes_schema_nil ["expiresInMinutes"%string]). fold C.
    split; [|tauto]. intros [H|[H|H]]; [| | exact H];
      exfalso; revert H; (eapply Hno; [eassumption|discriminate]).
Qed.

Lemma createTokenSchema_issues_witness :
  Zod.createTokenSchema_parse (Zod.body ""%string [] (Zod.NFinite (60 # 1))) =
    inl [Zod.mkIssue ["userId"%string] Zod.too_small; Zod.mkIssue ["scopes"%string] Zod.too_small] /\
  ((exists i, In i [Zod.mkIssue ["userId"%string] Zod.too_small; Zod.mkIssue ["scopes"%string] Zod.too_small] /\
      head (Zod.path i) = Some "expiresInMinutes"%string) <->
   ~ (exists q n, Zod.get "expiresInMinutes"%string
                    [("userId"%string, Zod.JStr ""%string); ("scopes"%string, Zod.JArr []);
                     ("expiresInMinutes"%string, Zod.JNum (Zod.NFinite (60 # 1)))] = Zod.JNum (Zod.NFinite q) /\
        (q == inject_Z n)%Q /\ 0 < n <= 525600)).
Proof.
  assert (Hp : Zod.createTokenSchema_parse (Zod.body ""%string [] (Zod.NFinite (60 # 1))) =
    inl [Zod.mkIssue ["userId"%string] Zod.too_small; Zod.mkIssue ["scopes"%string] Zod.too_small]) by reflexivity.
  split; [exact Hp|].
  exact (proj2 (proj2 (proj2 (createTokenSchema_issues _ _ Hp)))).
Defined.

(** getTokensSchema accepts a value exactly when it is an object whose
    [userId] is a non-empty string, and then returns that string; other
    keys are ignored. *)
Theorem getTokensSchema_accepts (v : Zod.value) (u : string) :
  Zod.getTokensSchema_parse v = inr u <->
  exists kvs, v = Zod.JObj kvs /\ Zod.get "userId"%string kvs = Zod.JStr u /\ u <> EmptyString.
Proof.
  destruct v; simpl; split; try discriminate; try (intros (kvs' & H & _); discriminate).
  - destruct (Zod.string_min1 ["userId"%string] (Zod.get "userId"%string kvs)) eqn:E; [|discriminate].
    intros H. injection H as <-. apply Zod.string_min1_nil in E as (s & Hs & Hne).
    exists kvs. rewrite Hs. auto.
  - intros (kvs' & H & Hu & Hne). injection H as <-.
    assert (E : Zod.string_min1 ["userId"%string] (Zod.get "userId"%string kvs) = [])
      by (apply Zod.string_min1_nil; eauto).
    rewrite E, Hu. reflexivity.
Qed.

Lemma serializeToken_some (t : Token) : exists r, serializeToken t = Some r.
Proof.
  unfold serializeToken, ISO.toISOString.
  destruct (Calendar.civil_from_days (Day (createdAt t))) as [[? ?] ?].
  destruct (Calendar.civil_from_days (Day (expiresAt t))) as [[? ?] ?].
  eexists; reflexivity.
Qed.

Lemma serializeToken_fields (t : Token) (r : TokenResponse) :
  serializeToken t = Some r ->
  r_id r = id t /\ r_token r = token t /\ r_userId r = userId t /\ r_scopes r = scopes t /\
  (Z.abs (createdAt t) <= maxTime -> Date_parse (r_createdAt r) = Some (createdAt t)) /\
  (Z.abs (expiresAt t) <= maxTime -> Date_parse (r_expiresAt r) = Some (expiresAt t)).
Proof.
  unfold serializeToken.
  destruct (ISO.toISOString (Some (createdAt t))) as [c|] eqn:Ec; [|discriminate].
  destruct (ISO.toISOString (Some (expiresAt t))) as [e|] eqn:Ee; [|discriminate].
  intros H. injection H as <-. simpl. repeat split; intros Hb; unfold Date_parse;
    rewrite list_ascii_of_string_of_list_ascii.
  - destruct (ISO.parse_toISOString _ Hb) as (s & Hs & Hp). congruence.
  - destruct (ISO.parse_toISOString _ Hb) as (s & Hs & Hp). congruence.
Qed.

Lemma map_serializeToken_Forall2 (l : list Token) :
  exists rs, map_serializeToken l = Some rs /\ Forall2 (fun t r => serializeToken t = Some r) l rs.
Proof.
  induction l as [|t l (rs & Hrs & Hf)]; cbn [map_serializeToken]; [eexists; split; [reflexivity|constructor]|].
  destruct (serializeToken_some t) as (r & Hr). rewrite Hr, Hrs.
  eexists; split; [reflexivity|constructor; assumption].
Qed.




(** createTokenController answers 401 exactly when the API-key check
    fails, 400 exactly when the key passes and the JSON body breaks the
    schema, and otherwise 201 or 500; the table changes only with a 201,
    by one appended row which the response body serializes. *)
Theorem createTokenController_outcomes (ev : Env) (st : store) (req : Request) :
  let '(resp, st') := createTokenController ev st req in
  (status resp = 401 <-> validateApiKey (hdr_api_key req) (env_api_key ev) = false) /\
  (status resp = 400 <-> validateApiKey (hdr_api_key req) (env_api_key ev) = true /\
                         exists b, json_body req = Some b /\ Zod.accepts b = false) /\
  ((status resp = 201 /\ exists t r, st' = st ++ [t] /\ serializeToken t = Some r /\
                                     resp_body resp = TokenBody r) \/
   ((status resp = 400 \/ status resp = 401 \/ status resp = 500) /\ st' = st)).
Proof.
  unfold createTokenController.
  destruct (validateApiKey (hdr_api_key req) (env_api_key ev)) eqn:Hk; cbn [negb].
  2:{ simpl. split; [tauto|]. split; [split; [discriminate|intros [H _]; discriminate]|]. right; auto. }
  destruct (json_body req) as [b|] eqn:Hb.
  2:{ simpl. split; [split; discriminate|]. split.
      - split; [discriminate|intros (_ & b & H & _); discriminate].
      - right; auto. }
  unfold Zod.accepts. destruct (Zod.createTokenSchema_parse b) as [is|x] eqn:Hp.
  { simpl. split; [split; discriminate|]. split.
    - split; [intros _; split; [reflexivity|exists b; rewrite Hp; auto]|reflexivity].
    - right; auto. }
  pose proof (createToken_effect (env_tz ev) (env_rnd ev) (env_now ev) (env_newId ev) (env_dbNow ev)
                st (Zod.in_userId x) (Zod.in_scopes x) (Q_to_Z (Zod.in_minutes x))) as He.
  destruct (createToken _ _ _ _ _ _ _ _ _) as [[t|] st'].
  - destruct He as [[Hd _]|(r & Hr & Hst & _)]; [discriminate|]. injection Hr as <-.
    destruct (serializeToken_some t) as (r & Hs). rewrite Hs. simpl.
    split; [split; discriminate|]. split.
    + split; [discriminate|intros (_ & b' & Hb' & Ha); injection Hb' as <-;
                           rewrite Hp in Ha; discriminate].
    + left. split; [reflexivity|]. exists t, r. auto.
  - destruct He as [[_ Hst]|(r & Hr & _)]; [|discriminate]. simpl.
    split; [split; discriminate|]. split.
    + split; [discriminate|intros (_ & b' & Hb' & Ha); injection Hb' as <-;
                           rewrite Hp in Ha; discriminate].
    + right. auto.
Qed.


(** With the API-key check passed, a missing [userId] query parameter is
    reported as one invalid_type issue under [userId], an empty one as
    one too_small issue under [userId]; both answer 400 and read nothing. *)
Theorem getTokensController_bad_userId (ev : Env) (st : store) (req : GetRequest) :
  validateApiKey (g_api_key req) (env_api_key ev) = true ->
  (q_userId req = None ->
   getTokensController ev st req =
     (mkGetResponse 400 (GetError "Validation failed"%string (Some [Zod.mkIssue ["userId"%string] Zod.invalid_type])), st)) /\
  (q_userId req = Some EmptyString ->
   getTokensController ev st req =
     (mkGetResponse 400 (GetError "Validation failed"%string (Some [Zod.mkIssue ["userId"%string] Zod.too_small])), st)).
Proof.
  intros Hk. unfold getTokensController. rewrite Hk. cbn [negb].
  split; intros Hq; rewrite Hq; reflexivity.
Qed.

Lemma getTokensController_bad_userId_witness :
  getTokensController (mkEnv (Some "secret"%string) (fixed_tz 0) [] 0 ""%string 0) []
    (mkGetRequest (Some "secret"%string) None) =
  (mkGetResponse 400 (GetError "Validation failed"%string (Some [Zod.mkIssue ["userId"%string] Zod.invalid_type])), []).
Proof.
  apply (getTokensController_bad_userId (mkEnv (Some "secret"%string) (fixed_tz 0) [] 0 ""%string 0) []
           (mkGetRequest (Some "secret"%string) None)); reflexivity.
Defined.

(** A GET that passes the API-key check with a non-empty [userId] gets
    200 and the serialization of exactly the user's active tokens, in the
    order getActiveTokensForUser gives; when the table holds valid
    Dates, each entry belongs to the user and its [expiresAt] text reads
    back to an instant after the clock reading. *)
Theorem getTokensController_ok (ev : Env) (st : store) (req : GetRequest) (u : string) :
  validateApiKey (g_api_key req) (env_api_key ev) = true ->
  q_userId req = Some u -> u <> EmptyString ->
  Forall (fun t => Z.abs (createdAt t) <= maxTime /\ Z.abs (expiresAt t) <= maxTime) st ->
  exists rs,
    getTokensController ev st req = (mkGetResponse 200 (TokenList rs), st) /\
    Forall2 (fun t r => serializeToken t = Some r) (fst (getActiveTokensForUser st u (env_now ev))) rs /\
    Forall (fun r => r_userId r = u /\
              exists e, Date_parse (r_expiresAt r) = Some e /\ env_now ev < e) rs.
Proof.
  intros Hk Hq Hne Hst.
  destruct (map_serializeToken_Forall2 (fst (getActiveTokensForUser st u (env_now ev))))
    as (rs & Hrs & Hf).
  exists rs. split.
  - unfold getTokensController. rewrite Hk, Hq. cbn [negb].
    destruct u as [|c s]; [contradiction|]. simpl in Hrs |- *. rewrite Hrs. reflexivity.
  - split; [exact Hf|].
    assert (Hin : forall t, In t (fst (getActiveTokensForUser st u (env_now ev))) ->
                       In t st /\ userId t = u /\ env_now ev < expiresAt t) by (intros t; apply getActive_In).
    clear Hrs. revert Hf Hin. generalize (fst (getActiveTokensForUser st u (env_now ev))) as l.
    intros l Hf. induction Hf as [|t r l0 rs0 Htr Hf IH]; intros Hin; constructor.
    + destruct (Hin t (or_introl eq_refl)) as (Ht & Hu & Hlt).
      destruct (serializeToken_fields t r Htr) as (_ & _ & H3 & _ & _ & H6).
      split; [congruence|]. exists (expiresAt t). split; [|exact Hlt].
      apply H6. rewrite Forall_forall in Hst. apply (Hst t Ht).
    + apply IH. intros t' Ht'. apply Hin. right. exact Ht'.
Qed.

Lemma getTokensController_ok_witness :
  exists rs,
    getTokensController (mkEnv (Some "secret"%string) (fixed_tz 0) [] 10 ""%string 0)
      [mkToken "a"%string "token_a"%string "u"%string ["read"%string] 0 100; mkToken "b"%string "token_b"%string "v"%string ["read"%string] 0 100]
      (mkGetRequest (Some "secret"%string) (Some "u"%string)) =
      (mkGetResponse 200 (TokenList rs),
       [mkToken "a"%string "token_a"%string "u"%string ["read"%string] 0 100; mkToken "b"%string "token_b"%string "v"%string ["read"%string] 0 100]) /\
    List.length rs = 1%nat.
Proof.
  destruct (getTokensController_ok (mkEnv (Some "secret"%string) (fixed_tz 0) [] 10 ""%string 0)
      [mkToken "a"%string "token_a"%string "u"%string ["read"%string] 0 100; mkToken "b"%string "token_b"%string "v"%string ["read"%string] 0 100]
      (mkGetRequest (Some "secret"%string) (Some "u"%string)) "u"%string)
    as (rs & Hc & Hf & _);
    [reflexivity | reflexivity | discriminate
    | repeat constructor; unfold maxTime; simpl; lia |].
  exists rs. split; [exact Hc|]. apply Forall2_length in Hf. rewrite <- Hf. reflexivity.
Defined.
